(** * go-fswatch: a polling file watcher (watch.go)

    A shallow embedding of [watch.go]: snapshots are finite maps from base
    names to file metadata, a tick diffs the stored snapshot of every watch
    against a fresh one and sends events and errors on two channels. *)

From Stdlib Require Import ZArith Ascii String List.
From stdpp Require Import base list gmap strings.

Local Open Scope Z_scope.
Local Open Scope string_scope.

(** ** Event vocabulary *)

(** [type Op uint32], with [Create Op = 1 << iota] and the four constants
    after it. *)
Definition Op := Z.

Definition Create : Op := Z.shiftl 1 0.
Definition Write  : Op := Z.shiftl 1 1.
Definition Remove : Op := Z.shiftl 1 2.
Definition Rename : Op := Z.shiftl 1 3.
Definition Chmod  : Op := Z.shiftl 1 4.

(** [type Event struct { Name string; Op Op }] *)
Record Event := mkEvent { ev_Name : string; ev_Op : Op }.

Global Instance Event_eq_dec : EqDecision Event.
Proof. solve_decision. Defined.

(** ** File metadata *)

(** What the program reads of an [os.FileInfo]: [Name()], [ModTime()] and
    [Mode()]; [IsDir()] is the [ModeDir] bit of the mode.  A [time.Time] is
    kept as one integer instant, an [os.FileMode] as its 32 bits. *)
Record OsFileInfo := mkOsFileInfo {
  fi_Name : string;
  fi_ModTime : Z;
  fi_Mode : Z
}.

Global Instance OsFileInfo_eq_dec : EqDecision OsFileInfo.
Proof. solve_decision. Defined.

Definition ModeDir : Z := Z.shiftl 1 31.

Definition IsDir (f : OsFileInfo) : bool :=
  negb (Z.eqb (Z.land (fi_Mode f) ModeDir) 0).

(** [type FileInfo struct { os.FileInfo; path string }] *)
Record FileInfo := mkFileInfo { osinfo : OsFileInfo; path : string }.

Global Instance FileInfo_eq_dec : EqDecision FileInfo.
Proof. solve_decision. Defined.

Definition Name (f : FileInfo) : string := fi_Name (osinfo f).
Definition ModTime (f : FileInfo) : Z := fi_ModTime (osinfo f).
Definition Mode (f : FileInfo) : Z := fi_Mode (osinfo f).

(** A snapshot: [map[string]FileInfo].  A nil map reads like the empty one. *)
Abbreviation Snapshot := (gmap string FileInfo).

(** ** The diff of two snapshots (the two loops of [start]) *)

Module Diff.

(** Body of the loop [for k, v := range n]: the events it sends for one
    entry of the new snapshot, in the order of the sends. *)
Definition modified (files : Snapshot) (kv : string * FileInfo) : list Event :=
  let '(k, v) := kv in
  match files !! k with
  | None => [mkEvent (path v) Create]
  | Some f =>
      (if bool_decide (ModTime f ≠ ModTime v) then [mkEvent (path v) Write] else [])
      ++ (if bool_decide (Mode f ≠ Mode v) then [mkEvent (path v) Chmod] else [])
  end.

(** Body of the loop [for k, v := range curWatch.files]. *)
Definition deleted (n : Snapshot) (kv : string * FileInfo) : list Event :=
  let '(k, v) := kv in
  match n !! k with
  | None => [mkEvent (path v) Remove]
  | Some _ => []
  end.

(** The events of one watch on one tick.  Go leaves the order of a [range]
    over a map open, so the two iteration sequences [rn] (over [n]) and
    [rf] (over [files]) are arguments. *)
Definition events (files n : Snapshot) (rn rf : list (string * FileInfo)) : list Event :=
  flat_map (modified files) rn ++ flat_map (deleted n) rf.

(** The same sends, each tagged with the key [k] of the iteration that made
    it.  The tag only tells the entries apart; the program never sees it. *)
Definition tag {A} (body : string * FileInfo → list A) (kv : string * FileInfo)
  : list (string * A) := map (pair (fst kv)) (body kv).

Definition tagged (files n : Snapshot) (rn rf : list (string * FileInfo))
  : list (string * Event) :=
  flat_map (tag (modified files)) rn ++ flat_map (tag (deleted n)) rf.

(** The events sent by the iterations for entry [k]. *)
Definition events_of (k : string) (l : list (string * Event)) : list Event :=
  map snd (filter (λ p, fst p = k) l).

(** An iteration sequence of a map: every entry once, in some order. *)
Definition ranges (m : Snapshot) (r : list (string * FileInfo)) : Prop :=
  r ≡ₚ map_to_list m.

End Diff.

(** ** Errors and panics *)

(** A Go [error] value: the sentinel [filepath.SkipDir], an [errors.New]
    text, or the [*os.PathError] of a failed system call. *)
Inductive error :=
| SkipDir
| New (text : string)
| PathError (op : string) (at_path : string) (text : string).

Global Instance error_eq_dec : EqDecision error.
Proof. solve_decision. Defined.

(** A call either returns or panics. *)
Inductive run (A : Type) :=
| Done (a : A)
| Panic (why : string).
Arguments Done {A} a.
Arguments Panic {A} why.

Global Instance run_ret : MRet run := λ A a, Done a.
Global Instance run_bind : MBind run := λ A B k r,
  match r with
  | Done a => k a
  | Panic why => Panic why
  end.
Global Instance run_fmap : FMap run := λ A B f r,
  match r with
  | Done a => Done (f a)
  | Panic why => Panic why
  end.

Definition nil_dereference : string :=
  "invalid memory address or nil pointer dereference".

(** ** The file system as the walk sees it *)

(** What [os.Lstat] and the directory listing answer below one path: the
    entry cannot be stat'ed ([Missing], under the name its directory lists
    it by), or it has metadata and, if it is asked for its names, either an
    error or its entries in the order they are listed. *)
#[warnings="-register-all"]
Inductive tree :=
| Missing (name : string) (err : error)
| Found (info : OsFileInfo) (names : error + list tree).

Definition entry_name (t : tree) : string :=
  match t with
  | Missing name _ => name
  | Found info _ => fi_Name info
  end.

(** The state of the file system at one instant: what is at each root. *)
Definition FS := string → tree.

(** [os.Lstat(path)] *)
Definition Lstat (fs : FS) (p : string) : option OsFileInfo * option error :=
  match fs p with
  | Missing _ err => (None, Some err)
  | Found info _ => (Some info, None)
  end.

(** The elements of a path: what stands between its slashes. *)
Fixpoint elements (p : string) : list string :=
  match p with
  | EmptyString => [EmptyString]
  | String.String c rest =>
      if Ascii.eqb c "/"%char
      then EmptyString :: elements rest
      else match elements rest with
           | [] => [String.String c EmptyString]
           | x :: xs => String.String c x :: xs
           end
  end.

(** One element of [Clean], on the elements kept so far, the last one
    first: empty elements and [.] go, [..] takes the element before it away
    unless that is a [..] itself, and goes at the start of a rooted path. *)
Definition clean_element (rooted : bool) (kept : list string) (e : string)
  : list string :=
  if String.eqb e EmptyString || String.eqb e "." then kept
  else if String.eqb e ".." then
    match kept with
    | top :: below => if String.eqb top ".." then e :: kept else below
    | [] => if rooted then [] else [e]
    end
  else e :: kept.

(** [filepath.Clean] for slash-separated paths: the shortest path that
    names the same file by the rules above, [.] for the empty result. *)
Definition Clean (p : string) : string :=
  let rooted :=
    match p with
    | String.String c _ => Ascii.eqb c "/"%char
    | EmptyString => false
    end in
  let kept := rev (fold_left (clean_element rooted) (elements p) []) in
  let out := (if rooted then "/" else EmptyString) ++ String.concat "/" kept in
  if String.eqb out EmptyString then "." else out.

(** [filepath.Join] of two elements: empty elements before the first one
    that is not empty are dropped, the rest is joined with a slash and
    cleaned; the empty string if both are empty. *)
Definition Join (dir name : string) : string :=
  if String.eqb dir EmptyString
  then (if String.eqb name EmptyString then EmptyString else Clean name)
  else Clean (dir ++ "/" ++ name).

(** ** [filepath.Walk] *)

Module Filepath.
Section Walk.
Context {M : Type}.

(** [type WalkFunc func(path string, info os.FileInfo, err error) error];
    [M] is the state the closure captures, [None] the nil interface. *)
Definition WalkFunc : Type :=
  string → option OsFileInfo → option error → M → run (M * option error).

Definition is_nil (e : option error) : bool :=
  match e with None => true | Some _ => false end.

Definition is_SkipDir (e : option error) : bool :=
  bool_decide (e = Some SkipDir).

(** [walk] of the library [path/filepath], which the program relies on.
    A file gets one call [walkFn(path, info, nil)].  A directory is listed
    first, [names, err := readDirNames(path)], and gets one call
    [err1 := walkFn(path, info, err)]; if [err] or [err1] is not nil the
    walk of the directory returns [err1].  Then each name is stat'ed,
    [fileInfo, err := lstat(filename)]: on an error the call is
    [walkFn(filename, fileInfo, err)] with the nil [fileInfo] that [lstat]
    returned, which is the case [Missing] here, otherwise the walk descends.
    [Walk] makes the same nil call when the [Lstat] of the root fails. *)
Fixpoint walk (walkFn : WalkFunc) (p : string) (t : tree) (m : M)
  : run (M * option error) :=
  match t with
  | Missing _ err => walkFn p None (Some err) m
  | Found info dir =>
      if negb (IsDir info) then walkFn p (Some info) None m
      else
        let err := match dir with inl e => Some e | inr _ => None end in
        '(m1, err1) ← walkFn p (Some info) err m;
        match dir with
        | inl _ => Done (m1, err1)
        | inr names =>
          if negb (is_nil err1) then Done (m1, err1)
          else
          (fix each (names : list tree) (m : M) : run (M * option error) :=
             match names with
             | [] => Done (m, None)
             | c :: rest =>
                 let filename := Join p (entry_name c) in
                 '(m2, e) ← walk walkFn filename c m;
                 match c with
                 | Missing _ _ =>
                     if negb (is_nil e) && negb (is_SkipDir e)
                     then Done (m2, e) else each rest m2
                 | Found fileInfo _ =>
                     if negb (is_nil e) &&
                        (negb (IsDir fileInfo) || negb (is_SkipDir e))
                     then Done (m2, e) else each rest m2
                 end
             end) names m1
        end
  end.

(** [func Walk(root string, fn WalkFunc) error] *)
Definition Walk (fs : FS) (root : string) (fn : WalkFunc) (m : M)
  : run (M * option error) :=
  '(m1, err) ← walk fn root (fs root) m;
  if is_SkipDir err then Done (m1, None) else Done (m1, err).

End Walk.

(** The arguments of one call of the walk function. *)
Definition call : Type := string * option OsFileInfo * option error.

(** The calls [Walk] makes, in order, to a function that always returns
    nil (see [walk_replay] below). *)
Fixpoint calls (p : string) (t : tree) : list call :=
  match t with
  | Missing _ err => [(p, None, Some err)]
  | Found info dir =>
      if negb (IsDir info) then [(p, Some info, None)]
      else
        match dir with
        | inl e => [(p, Some info, Some e)]
        | inr names =>
            (p, Some info, None)
              :: flat_map (λ c, calls (Join p (entry_name c)) c) names
        end
  end.

End Filepath.

(** ** [directoryMap] *)

(** The function literal handed to [filepath.Walk]:
    [m[f.Name()] = FileInfo{f, path}; return nil]. *)
Definition visit : @Filepath.WalkFunc Snapshot := λ p f err m,
  match f with
  | None => Panic nil_dereference
  | Some f => Done (<[fi_Name f := mkFileInfo f p]> m, None)
  end.

(** [func directoryMap(path string) (map[string]FileInfo, error)]; the nil
    map of the error return is the empty one. *)
Definition directoryMap (fs : FS) (p : string) : run (Snapshot * option error) :=
  match Lstat fs p with
  | (_, Some err) => Done (∅, Some err)
  | (_, None) =>
      '(m, _) ← Filepath.Walk fs p visit ∅;
      Done (m, None)
  end.

(** ** The visits of a walk *)

(** [visit] run over a sequence of calls, as [Walk] does for a function
    that never returns an error: it stops only at a panic. *)
Fixpoint replay (cs : list Filepath.call) (m : Snapshot) : run Snapshot :=
  match cs with
  | [] => Done m
  | (p, f, err) :: rest => '(m1, _) ← visit p f err m; replay rest m1
  end.

(** The entry a call stores, if it comes with metadata. *)
Definition seen (c : Filepath.call) : option FileInfo :=
  let '(p, f, _) := c in (λ f, mkFileInfo f p) <$> f.

(** The entries below [root] in the order the walk visits them. *)
Definition entries (fs : FS) (root : string) : list FileInfo :=
  omap seen (Filepath.calls root (fs root)).

(** Every entry of the tree can be stat'ed. *)
Fixpoint statable (t : tree) : Prop :=
  match t with
  | Missing _ _ => False
  | Found _ (inl _) => True
  | Found _ (inr names) =>
      (fix all (l : list tree) : Prop :=
         match l with
         | [] => True
         | c :: rest => statable c ∧ all rest
         end) names
  end.

(** ** Channels and the ticker *)

(** An unbuffered channel with a consumer that takes whatever is sent:
    the values delivered so far and whether the channel has been closed.
    Sending on or closing a closed channel panics. *)
Record chan (A : Type) := mkChan { closed : bool; delivered : list A }.
Arguments mkChan {A} closed delivered.
Arguments closed {A} c.
Arguments delivered {A} c.

Definition make {A} : chan A := mkChan false [].

Definition send {A} (c : chan A) (x : A) : run (chan A) :=
  if closed c then Panic "send on closed channel"
  else Done (mkChan false (delivered c ++ [x])).

Definition close {A} (c : chan A) : run (chan A) :=
  if closed c then Panic "close of closed channel"
  else Done (mkChan true (delivered c)).

Fixpoint send_all {A} (c : chan A) (xs : list A) : run (chan A) :=
  match xs with
  | [] => Done c
  | x :: rest => c1 ← send c x; send_all c1 rest
  end.

(** A [time.Duration] in nanoseconds. *)
Definition Millisecond : Z := 1000000.
Definition defaultPollFrequency : Z := Millisecond * 250.

(** A [*time.Ticker]: its period and how often [Stop] ran on it. *)
Record Ticker := mkTicker { period : Z; stops : nat }.

Definition NewTicker (d : Z) : run Ticker :=
  if Z.leb d 0 then Panic "non-positive interval for NewTicker"
  else Done (mkTicker d 0).

Definition Stop (t : Ticker) : Ticker := mkTicker (period t) (S (stops t)).

(** ** The watcher *)

(** [type watch struct { path string; files map[string]FileInfo }] *)
Record watch := mkWatch { w_path : string; files : Snapshot }.

(** [type Watcher struct]; the mutex guards [watches] and has no state of
    its own in a run of one call at a time. *)
Record Watcher := mkWatcher {
  Events : chan Event;
  Errors : chan error;
  pollFrequency : Z;
  ticker : option Ticker;
  watches : gmap string watch;
  isRunning : bool
}.

Definition set_watches (w : Watcher) (ws : gmap string watch) : Watcher :=
  mkWatcher (Events w) (Errors w) (pollFrequency w) (ticker w) ws (isRunning w).

Module Watcher.

(** [func (w *Watcher) start()], without the goroutine it launches: that
    one runs [tick] below each time the ticker fires. *)
Definition start (w : Watcher) : run Watcher :=
  t ← NewTicker (pollFrequency w);
  Done (mkWatcher (Events w) (Errors w) (pollFrequency w) (Some t)
          (watches w) true).

(** [func (w *Watcher) PollFrequency(f time.Duration) error] *)
Definition PollFrequency (f : Z) (w : Watcher) : run (Watcher * option error) :=
  Done (mkWatcher (Events w) (Errors w) f (ticker w) (watches w) (isRunning w),
        None).

(** [func (w *Watcher) Add(path string) error] *)
Definition Add (fs : FS) (p : string) (w : Watcher) : run (Watcher * option error) :=
  if bool_decide (p = EmptyString) then Done (w, Some (New "path cannot be empty"))
  else
    match watches w !! p with
    | Some _ => Done (w, Some (New "watch already exists"))
    | None =>
        '(files, err) ← directoryMap fs p;
        match err with
        | Some e => Done (w, Some e)
        | None => Done (set_watches w (<[p := mkWatch p files]> (watches w)), None)
        end
    end.

(** [func (w *Watcher) Remove(path string) error] *)
Definition Remove (p : string) (w : Watcher) : run (Watcher * option error) :=
  if bool_decide (p = EmptyString) then Done (w, Some (New "can't remove an empty path"))
  else
    match watches w !! p with
    | Some _ => Done (set_watches w (delete p (watches w)), None)
    | None => Done (w, None)
    end.

(** [func (w *Watcher) Close()] *)
Definition Close (w : Watcher) : run Watcher :=
  if isRunning w then
    t ← match ticker w with
        | None => Panic nil_dereference
        | Some t => Done (Stop t)
        end;
    events ← close (Events w);
    errors ← close (Errors w);
    Done (mkWatcher events errors (pollFrequency w) (Some t) (watches w) false)
  else Done w.

(** ** One tick of the goroutine of [start] *)

(** The body of [for _, curWatch := range w.watches].  [range] is the order
    in which Go happens to iterate over a map. *)
Definition poll (range : Snapshot → list (string * FileInfo)) (fs : FS)
    (curWatch : watch) (w : Watcher) : run Watcher :=
  '(n, err) ← directoryMap fs (w_path curWatch);
  errors ← match err with
           | Some e => send (Errors w) e
           | None => Done (Errors w)
           end;
  events ← send_all (Events w)
             (Diff.events (files curWatch) n (range n) (range (files curWatch)));
  Done (mkWatcher events errors (pollFrequency w) (ticker w)
          (<[w_path curWatch := mkWatch (w_path curWatch) n]> (watches w))
          (isRunning w)).

(** The body of [for _ = range w.ticker.C], over the watches in the order
    [order] of the outer [range]. *)
Fixpoint poll_all (range : Snapshot → list (string * FileInfo)) (fs : FS)
    (order : list watch) (w : Watcher) : run Watcher :=
  match order with
  | [] => Done w
  | curWatch :: rest => w1 ← poll range fs curWatch w; poll_all range fs rest w1
  end.

Definition tick (range : Snapshot → list (string * FileInfo))
    (rangeW : gmap string watch → list (string * watch)) (fs : FS) (w : Watcher)
  : run Watcher :=
  poll_all range fs (map snd (rangeW (watches w))) w.

End Watcher.

(** [func NewWatcher()], which returns the new watcher and a nil error *)
Definition NewWatcher : run (Watcher * option error) :=
  let w := mkWatcher make make defaultPollFrequency None ∅ false in
  w1 ← Watcher.start w;
  Done (w1, None).

(** ** [Event.String] *)

Section EventString.
(** [strconv.Quote], which [%q] applies to the name. *)
Variable Quote : string → string.

Definition has (op flag : Op) : bool := Z.eqb (Z.land op flag) flag.

(** [events[1:]] when [len(events) > 0] *)
Definition drop_first (events : string) : string :=
  if Nat.ltb 0 (String.length events)
  then substring 1 (String.length events - 1) events
  else events.

(** [func (e Event) String() string] *)
Definition String (e : Event) : string :=
  let events := EmptyString in
  let events := if has (ev_Op e) Create then events ++ "|CREATE" else events in
  let events := if has (ev_Op e) Remove then events ++ "|REMOVE" else events in
  let events := if has (ev_Op e) Write then events ++ "|WRITE" else events in
  let events := if has (ev_Op e) Rename then events ++ "|RENAME" else events in
  let events := if has (ev_Op e) Chmod then events ++ "|CHMOD" else events in
  let events := drop_first events in
  Quote (ev_Name e) ++ ": " ++ events.

(** The flag names in the order of the specification. *)
Definition flag_names : list (Z * string) :=
  [(0, "CREATE"); (2, "REMOVE"); (1, "WRITE"); (3, "RENAME"); (4, "CHMOD")]%Z.

(** The names of the flags whose bit is set in [op]. *)
Definition set_flags (op : Op) : list string :=
  map snd (filter (λ f, Z.testbit op (fst f) = true) flag_names).

Definition join (sep : string) (l : list string) : string :=
  match l with
  | [] => EmptyString
  | x :: rest => fold_left (λ acc y, acc ++ sep ++ y) rest x
  end.

(** The canonical string form as the specification words it. *)
Definition canonical (e : Event) : string :=
  Quote (ev_Name e) ++ ": " ++ join "|" (set_flags (ev_Op e)).

End EventString.

(** ** Runs of a watcher *)

(** What can happen to a watcher: a caller uses one of the four methods,
    or the ticker fires and the goroutine makes a tick. *)
Inductive step :=
| DoAdd (fs : FS) (p : string)
| DoRemove (p : string)
| DoPollFrequency (f : Z)
| DoClose
| DoTick (range : Snapshot → list (string * FileInfo))
         (rangeW : gmap string watch → list (string * watch)) (fs : FS).

Definition perform (s : step) (w : Watcher) : run Watcher :=
  match s with
  | DoAdd fs p => fst <$> Watcher.Add fs p w
  | DoRemove p => fst <$> Watcher.Remove p w
  | DoPollFrequency f => fst <$> Watcher.PollFrequency f w
  | DoClose => Watcher.Close w
  | DoTick range rangeW fs => Watcher.tick range rangeW fs w
  end.

Fixpoint perform_all (l : list step) (w : Watcher) : run Watcher :=
  match l with
  | [] => Done w
  | s :: rest => w1 ← perform s w; perform_all rest w1
  end.

(** The watchers there can be: made by [NewWatcher] and used since. *)
Definition reached (l : list step) (w : Watcher) : Prop :=
  ∃ w0, NewWatcher = Done (w0, None) ∧ perform_all l w0 = Done w.

(** [n] calls of [Close] in a row. *)
Fixpoint Close_times (n : nat) (w : Watcher) : run Watcher :=
  match n with
  | O => Done w
  | S n => w1 ← Watcher.Close w; Close_times n w1
  end.

(** The two states of a watcher that has been started: running, with the
    ticker never stopped and both channels open, or stopped, with the
    ticker stopped once and both channels closed. *)
Definition wired (w : Watcher) : Prop :=
  ∃ t, ticker w = Some t ∧
    if isRunning w
    then stops t = 0%nat ∧ closed (Events w) = false ∧ closed (Errors w) = false
    else stops t = 1%nat ∧ closed (Events w) = true ∧ closed (Errors w) = true.

(** ** Ticks in a run *)

(** A tick whose two [range] orders go through every entry of the map
    they are given exactly once, as Go's do. *)
Definition orderly (s : step) : Prop :=
  match s with
  | DoTick range rangeW _ =>
      (∀ m, range m ≡ₚ map_to_list m) ∧ (∀ ws, rangeW ws ≡ₚ map_to_list ws)
  | _ => True
  end.

(** Every watch is stored under its own path, which is not empty. *)
Definition keyed (w : Watcher) : Prop :=
  ∀ k c, watches w !! k = Some c → w_path c = k ∧ k ≠ EmptyString.

(** The watch holds what [directoryMap] returns for its path on [fs]. *)
Definition current (fs : FS) (c : watch) : Prop :=
  ∃ err, directoryMap fs (w_path c) = Done (files c, err).

(** ** Sample data *)

Module Samples.

Definition dir_mode : Z := Z.lor ModeDir 493.   (* drwxr-xr-x *)
Definition file_mode : Z := 420.                (* -rw-r--r-- *)

Definition a_txt : FileInfo := mkFileInfo (mkOsFileInfo "a.txt" 100 file_mode) "/tmp/w/a.txt".
Definition b_txt : FileInfo := mkFileInfo (mkOsFileInfo "b.txt" 200 file_mode) "/tmp/w/b.txt".
Definition c_txt : FileInfo := mkFileInfo (mkOsFileInfo "c.txt" 300 file_mode) "/tmp/w/c.txt".

(** [a.txt] written to and made executable. *)
Definition a_txt' : FileInfo := mkFileInfo (mkOsFileInfo "a.txt" 150 493) "/tmp/w/a.txt".

(** Two snapshots of [/tmp/w]: [c.txt] goes, [b.txt] comes, [a.txt] changes. *)
Definition before : Snapshot := <["c.txt" := c_txt]> (<["a.txt" := a_txt]> ∅).
Definition after : Snapshot := <["b.txt" := b_txt]> (<["a.txt" := a_txt']> ∅).

(** A disk with the directory [/tmp/w] holding [a.txt] and [c.txt], and
    nothing else. *)
Definition ENOENT (p : string) : error :=
  PathError "lstat" p "no such file or directory".

Definition tmp_w : tree :=
  Found (mkOsFileInfo "w" 50 dir_mode)
    (inr [Found (osinfo a_txt) (inr []); Found (osinfo c_txt) (inr [])]).

Definition disk : FS := λ p,
  if bool_decide (p = "/tmp/w") then tmp_w else Missing p (ENOENT p).

Definition w_snapshot : Snapshot :=
  <["c.txt" := c_txt]>
    (<["a.txt" := a_txt]>
       (<["w" := mkFileInfo (mkOsFileInfo "w" 50 dir_mode) "/tmp/w"]> ∅)).

(** The watcher [NewWatcher] makes. *)
Definition fresh : Watcher :=
  mkWatcher make make defaultPollFrequency
    (Some (mkTicker defaultPollFrequency 0)) ∅ true.

(** A directory that can be listed but not searched: the names of its
    entries are known, their metadata is not. *)
Definition EACCES (p : string) : error :=
  PathError "lstat" p "permission denied".

Definition tmp_locked : tree :=
  Found (mkOsFileInfo "locked" 60 (Z.lor ModeDir 292))   (* dr--r--r-- *)
    (inr [Missing "secret" (EACCES "/tmp/locked/secret")]).

Definition locked_disk : FS := λ p,
  if bool_decide (p = "/tmp/locked") then tmp_locked else Missing p (ENOENT p).

(** A root with a file [x] in each of two subdirectories. *)
Definition x_in (d : string) (t : Z) : FileInfo :=
  mkFileInfo (mkOsFileInfo "x" t file_mode) ("/tmp/r/" ++ d ++ "/x").

Definition tmp_r : tree :=
  Found (mkOsFileInfo "r" 10 dir_mode)
    (inr [Found (mkOsFileInfo "d1" 11 dir_mode)
            (inr [Found (osinfo (x_in "d1" 12)) (inr [])]);
          Found (mkOsFileInfo "d2" 13 dir_mode)
            (inr [Found (osinfo (x_in "d2" 14)) (inr [])])]).

Definition twin_disk : FS := λ p,
  if bool_decide (p = "/tmp/r") then tmp_r else Missing p (ENOENT p).

Definition r_snapshot : Snapshot :=
  <["x" := x_in "d2" 14]>
    (<["d2" := mkFileInfo (mkOsFileInfo "d2" 13 dir_mode) "/tmp/r/d2"]>
       (<["d1" := mkFileInfo (mkOsFileInfo "d1" 11 dir_mode) "/tmp/r/d1"]>
          (<["r" := mkFileInfo (mkOsFileInfo "r" 10 dir_mode) "/tmp/r"]> ∅))).

(** [fresh] after [Add("/tmp/w")] on [disk]. *)
Definition added : Watcher :=
  mkWatcher make make defaultPollFrequency
    (Some (mkTicker defaultPollFrequency 0))
    (<["/tmp/w" := mkWatch "/tmp/w" w_snapshot]> ∅) true.

(** A disk on which [/tmp/w] is gone, and a watcher that still holds the
    snapshot [before] of it. *)
Definition void : FS := λ p, Missing p (ENOENT p).

Definition watched_w : watch := mkWatch "/tmp/w" before.

Definition watching : Watcher :=
  mkWatcher make make defaultPollFrequency
    (Some (mkTicker defaultPollFrequency 0)) (<["/tmp/w" := watched_w]> ∅) true.

(** The disk of [disk] a moment later: [b.txt] is new, [a.txt] has been
    written to and made executable, [c.txt] is gone. *)
Definition tmp_w_later : tree :=
  Found (mkOsFileInfo "w" 50 dir_mode)
    (inr [Found (osinfo a_txt') (inr []); Found (osinfo b_txt) (inr [])]).

Definition later_disk : FS := λ p,
  if bool_decide (p = "/tmp/w") then tmp_w_later else Missing p (ENOENT p).

(** A quoting function for names without special characters. *)
Definition bracket (name : string) : string := "<" ++ name ++ ">".

End Samples.

(** ** More sample data *)

Module MoreSamples.
Import Samples.

(** A disk on which the watched root is the file [/tmp/w/a.txt]. *)
Definition file_disk : FS := λ p,
  if bool_decide (p = "/tmp/w/a.txt") then Found (osinfo a_txt) (inr [])
  else Missing p (ENOENT p).

(** A directory that cannot be listed. *)
Definition private_info : OsFileInfo := mkOsFileInfo "private" 70 (Z.lor ModeDir 64).

Definition private_disk : FS := λ p,
  if bool_decide (p = "/tmp/private")
  then Found private_info (inl (PathError "open" p "permission denied"))
  else Missing p (ENOENT p).

(** The snapshot of [/tmp/w] on [later_disk], and the watcher [added]
    after a tick on that disk. *)
Definition w_later_snapshot : Snapshot :=
  <["b.txt" := b_txt]>
    (<["a.txt" := a_txt']>
       (<["w" := mkFileInfo (mkOsFileInfo "w" 50 dir_mode) "/tmp/w"]> ∅)).

Definition ticked : Watcher :=
  mkWatcher
    (mkChan false
       [mkEvent "/tmp/w/a.txt" Write; mkEvent "/tmp/w/a.txt" Chmod;
        mkEvent "/tmp/w/b.txt" Create; mkEvent "/tmp/w/c.txt" Remove])
    make defaultPollFrequency (Some (mkTicker defaultPollFrequency 0))
    (<["/tmp/w" := mkWatch "/tmp/w" w_later_snapshot]> ∅) true.

End MoreSamples.

(** * Properties *)

(** ** Iteration sequences of a map *)

Section Ranges.
Context {A : Type}.
Implicit Types (m : gmap string A) (r : list (string * A)).

Lemma keys_of_range m r : r ≡ₚ map_to_list m → NoDup r.*1.
Proof.
  intros Hr. rewrite Hr. apply NoDup_fst_map_to_list.
Qed.

Lemma elem_of_range m r k v :
  r ≡ₚ map_to_list m → (k, v) ∈ r ↔ m !! k = Some v.
Proof.
  intros Hr. rewrite Hr. apply elem_of_map_to_list.
Qed.

(** The iterations of a [range] for one key: a single one if the key is
    in the map, none otherwise. *)
Lemma iterations_absent r k :
  k ∉ r.*1 → filter (λ kv : string * A, fst kv = k) r = [].
Proof.
  induction r as [|[k' v'] r IH]; intros Hk; [done|].
  rewrite fmap_cons in Hk. apply not_elem_of_cons in Hk as [Hne Hk].
  rewrite filter_cons_False by (simpl; intros ->; by apply Hne). auto.
Qed.

Lemma iterations_present r k v :
  NoDup r.*1 → (k, v) ∈ r →
  filter (λ kv : string * A, fst kv = k) r = [(k, v)].
Proof.
  induction r as [|[k' v'] r IH]; intros Hnd Hin.
  - by apply elem_of_nil in Hin.
  - rewrite fmap_cons in Hnd. apply NoDup_cons in Hnd as [Hfresh Hnd].
    apply elem_of_cons in Hin as [Heq|Hin].
    + injection Heq as <- <-.
      rewrite filter_cons_True by done.
      by rewrite iterations_absent.
    + assert (k' ≠ k) as Hne.
      { intros ->. apply Hfresh. simpl.
        apply list_elem_of_fmap. by exists (k, v). }
      rewrite filter_cons_False by done. auto.
Qed.

Lemma range_lookup_Some m r k v :
  r ≡ₚ map_to_list m → m !! k = Some v →
  filter (λ kv : string * A, fst kv = k) r = [(k, v)].
Proof.
  intros Hr Hk. apply iterations_present.
  - by eapply keys_of_range.
  - by apply (elem_of_range m).
Qed.

Lemma range_lookup_None m r k :
  r ≡ₚ map_to_list m → m !! k = None →
  filter (λ kv : string * A, fst kv = k) r = [].
Proof.
  intros Hr Hk. apply iterations_absent.
  intros Hin. apply list_elem_of_fmap in Hin as ([k' v] & -> & Hin).
  apply (elem_of_range m) in Hin; [|done]. simpl in Hk. congruence.
Qed.
End Ranges.

(** ** The diff *)

Module DiffFacts.
Import Diff.

(** [map_to_list] itself is one of the possible orders. *)
Ltac canonical_order := unfold ranges; reflexivity.

(** Dropping the tags gives back the events as the program sends them. *)
Lemma tag_forget {A} (body : string * FileInfo → list A) r :
  map snd (flat_map (tag body) r) = flat_map body r.
Proof.
  induction r as [|kv r IH]; [done|].
  simpl. rewrite map_app, IH. f_equal.
  unfold tag. rewrite map_map. simpl. apply map_id.
Qed.

Lemma tagged_events files n rn rf :
  map snd (tagged files n rn rf) = events files n rn rf.
Proof.
  unfold tagged, events. by rewrite map_app, !tag_forget.
Qed.

(** The events tagged [k] are those of the iterations over the key [k]. *)
Lemma events_of_tag {A} (body : string * FileInfo → list A) k r :
  map snd (filter (λ p : string * A, fst p = k) (flat_map (tag body) r))
  = flat_map body (filter (λ kv : string * FileInfo, fst kv = k) r).
Proof.
  induction r as [|[k' v] r IH]; [done|].
  simpl. rewrite filter_app, map_app, IH.
  destruct (decide (k' = k)) as [->|Hne].
  - rewrite (filter_cons_True (λ kv : string * FileInfo, fst kv = k)) by done.
    simpl. f_equal. unfold tag. simpl.
    induction (body (k, v)) as [|x l IHl]; [done|].
    simpl. rewrite filter_cons_True by done. simpl. by rewrite IHl.
  - rewrite (filter_cons_False (λ kv : string * FileInfo, fst kv = k)) by done.
    replace (filter _ (tag body (k', v))) with (@nil (string * A)); [done|].
    unfold tag. simpl.
    induction (body (k', v)) as [|x l IHl]; [done|].
    simpl. by rewrite filter_cons_False by done.
Qed.

Lemma events_of_tagged files n rn rf k :
  events_of k (tagged files n rn rf)
  = (flat_map (modified files) (filter (λ kv : string * FileInfo, fst kv = k) rn)
     ++ flat_map (deleted n) (filter (λ kv : string * FileInfo, fst kv = k) rf))%list.
Proof.
  unfold events_of, tagged.
  by rewrite filter_app, map_app, !events_of_tag.
Qed.

(** C3: an entry name that is in exactly one of the two snapshots gets
    exactly one event, whatever the order of the two loops: a Create event
    with the path of the new metadata when the name is only in the new
    snapshot, a Remove event with the path of the old metadata when it is
    only in the old one.  The events counted are those the tick sends:
    without their tags they are the events of the diff. *)
Theorem create_remove_detection (files n : Snapshot) rn rf k v :
  ranges n rn → ranges files rf →
  map snd (tagged files n rn rf) = events files n rn rf
  ∧ (n !! k = Some v → files !! k = None →
     events_of k (tagged files n rn rf) = [mkEvent (path v) Create])
  ∧ (files !! k = Some v → n !! k = None →
     events_of k (tagged files n rn rf) = [mkEvent (path v) Remove]).
Proof.
  unfold ranges. intros Hn Hf. split; [apply tagged_events|].
  rewrite events_of_tagged. split; intros Hin Hout.
  - rewrite (range_lookup_Some n rn k v), (range_lookup_None files rf k) by done.
    simpl. by rewrite Hout.
  - rewrite (range_lookup_None n rn k), (range_lookup_Some files rf k v) by done.
    simpl. by rewrite Hout.
Qed.

Lemma create_remove_detection_witness :
  map snd (tagged Samples.before Samples.after
             (map_to_list Samples.after) (map_to_list Samples.before))
  = events Samples.before Samples.after
      (map_to_list Samples.after) (map_to_list Samples.before)
  ∧ events_of "b.txt" (tagged Samples.before Samples.after
                         (map_to_list Samples.after) (map_to_list Samples.before))
    = [mkEvent "/tmp/w/b.txt" Create]
  ∧ events_of "c.txt" (tagged Samples.before Samples.after
                         (map_to_list Samples.after) (map_to_list Samples.before))
    = [mkEvent "/tmp/w/c.txt" Remove].
Proof.
  split; [|split].
  - apply (proj1 (create_remove_detection Samples.before Samples.after
                    _ _ "b.txt" Samples.b_txt
                    ltac:(canonical_order) ltac:(canonical_order))).
  - apply (proj1 (proj2 (create_remove_detection Samples.before Samples.after
                    _ _ "b.txt" Samples.b_txt
                    ltac:(canonical_order) ltac:(canonical_order))));
      vm_compute; reflexivity.
  - apply (proj2 (proj2 (create_remove_detection Samples.before Samples.after
                    _ _ "c.txt" Samples.c_txt
                    ltac:(canonical_order) ltac:(canonical_order))));
      vm_compute; reflexivity.
Defined.

(** C4: an entry in both snapshots whose modification time and mode both
    differ gets exactly two events, a Write one and then a Chmod one, each
    with a single flag.  The events counted are those the tick sends:
    without their tags they are the events of the diff. *)
Theorem write_and_chmod_are_separate (files n : Snapshot) rn rf k f v :
  ranges n rn → ranges files rf →
  files !! k = Some f → n !! k = Some v →
  ModTime f ≠ ModTime v → Mode f ≠ Mode v →
  map snd (tagged files n rn rf) = events files n rn rf
  ∧ events_of k (tagged files n rn rf)
    = [mkEvent (path v) Write; mkEvent (path v) Chmod].
Proof.
  unfold ranges. intros Hn Hf Hold Hnew Ht Hm. split; [apply tagged_events|].
  rewrite events_of_tagged.
  rewrite (range_lookup_Some n rn k v), (range_lookup_Some files rf k f) by done.
  simpl. rewrite Hold, Hnew.
  by rewrite !bool_decide_eq_true_2 by done.
Qed.

Lemma write_and_chmod_are_separate_witness :
  map snd (tagged Samples.before Samples.after
             (map_to_list Samples.after) (map_to_list Samples.before))
  = events Samples.before Samples.after
      (map_to_list Samples.after) (map_to_list Samples.before)
  ∧ events_of "a.txt" (tagged Samples.before Samples.after
                         (map_to_list Samples.after) (map_to_list Samples.before))
    = [mkEvent "/tmp/w/a.txt" Write; mkEvent "/tmp/w/a.txt" Chmod].
Proof.
  apply (write_and_chmod_are_separate Samples.before Samples.after
           _ _ "a.txt" Samples.a_txt Samples.a_txt');
    try canonical_order; try reflexivity; vm_compute; congruence.
Defined.

(** C5: diffing a snapshot against itself sends no event. *)
Theorem diff_self_is_silent (S : Snapshot) rn rf :
  ranges S rn → ranges S rf → events S S rn rf = [].
Proof.
  unfold ranges, events. intros Hn Hf.
  assert (∀ r, (∀ kv, kv ∈ r → S !! fst kv = Some (snd kv)) →
               flat_map (modified S) r = [] ∧ flat_map (deleted S) r = []) as H.
  { induction r as [|[k v] r IH]; intros Hr; [done|].
    destruct IH as [IH1 IH2].
    { intros kv Hkv. apply Hr. by right. }
    pose proof (Hr (k, v) ltac:(left)) as Hk. simpl in Hk.
    simpl. rewrite IH1, IH2, Hk. simpl.
    by rewrite !bool_decide_eq_false_2 by (intros ?; congruence). }
  assert (∀ r, r ≡ₚ map_to_list S → ∀ kv, kv ∈ r → S !! fst kv = Some (snd kv)) as Hin.
  { intros r Hr [k v] Hkv. by apply (elem_of_range S r). }
  destruct (H rn (Hin rn Hn)) as [-> _].
  by destruct (H rf (Hin rf Hf)) as [_ ->].
Qed.

Lemma diff_self_is_silent_witness :
  events Samples.after Samples.after
    (map_to_list Samples.after) (map_to_list Samples.after) = [].
Proof.
  apply diff_self_is_silent; canonical_order.
Defined.

(** C8: no event of a diff has the Rename flag; the flags of every event
    are exactly Create, Write, Chmod or Remove. *)
Theorem rename_never_sent (files n : Snapshot) rn rf e :
  e ∈ events files n rn rf →
  ev_Op e ≠ Rename ∧ Z.land (ev_Op e) Rename = 0%Z
  ∧ (ev_Op e = Create ∨ ev_Op e = Write ∨ ev_Op e = Chmod ∨ ev_Op e = Remove).
Proof.
  intros He.
  assert (ev_Op e = Create ∨ ev_Op e = Write ∨ ev_Op e = Chmod ∨ ev_Op e = Remove)
    as Hop.
  { unfold events in He. apply elem_of_app in He as [He|He];
      apply list_elem_of_In, in_flat_map in He as ([k v] & _ & He); simpl in He.
    - destruct (files !! k) as [f|].
      + apply in_app_or in He as [He|He]; case_bool_decide; simpl in He;
          intuition (subst; simpl; auto).
      + simpl in He. intuition (subst; simpl; auto).
    - destruct (n !! k); simpl in He; intuition (subst; simpl; auto). }
  split; [|split]; [| |done];
    destruct Hop as [-> | [-> | [-> | ->]]]; done.
Qed.

Lemma rename_never_sent_witness :
  ev_Op (mkEvent "/tmp/w/c.txt" Remove) ≠ Rename
  ∧ Z.land (ev_Op (mkEvent "/tmp/w/c.txt" Remove)) Rename = 0%Z
  ∧ (ev_Op (mkEvent "/tmp/w/c.txt" Remove) = Create
     ∨ ev_Op (mkEvent "/tmp/w/c.txt" Remove) = Write
     ∨ ev_Op (mkEvent "/tmp/w/c.txt" Remove) = Chmod
     ∨ ev_Op (mkEvent "/tmp/w/c.txt" Remove) = Remove).
Proof.
  apply (rename_never_sent Samples.before Samples.after
           (map_to_list Samples.after) (map_to_list Samples.before)).
  vm_compute. do 3 right. left.
Defined.

End DiffFacts.

(** ** The string form of an event *)

Module StringFacts.

(** Masking with one bit leaves that bit or nothing. *)
Lemma land_bit (a n : Z) :
  (0 ≤ n)%Z → Z.land a (2 ^ n) = if Z.testbit a n then (2 ^ n)%Z else 0%Z.
Proof.
  intros Hn. apply Z.bits_inj'. intros i Hi.
  rewrite Z.land_spec, Z.pow2_bits_eqb by done.
  destruct (Z.eqb_spec n i) as [->|Hne].
  - destruct (Z.testbit a i) eqn:Hb; simpl.
    + by rewrite Z.pow2_bits_true.
    + by rewrite Z.bits_0.
  - rewrite andb_false_r.
    destruct (Z.testbit a n); [|by rewrite Z.bits_0].
    by rewrite Z.pow2_bits_false.
Qed.

(** The test [e.Op&flag == flag] reads the bit of the flag. *)
Lemma has_bit (op : Op) (n : Z) :
  (0 ≤ n)%Z → has op (2 ^ n) = Z.testbit op n.
Proof.
  intros Hn. unfold has. rewrite land_bit by done.
  destruct (Z.testbit op n).
  - apply Z.eqb_refl.
  - apply Z.eqb_neq. pose proof (Z.pow_pos_nonneg 2 n). lia.
Qed.

(** C10: the string of an event is its quoted name, a colon and a space,
    and the names of the flags that are set, joined by a bar, in the order
    Create, Remove, Write, Rename, Chmod; nothing after the space when no
    flag is set. *)
Theorem String_is_canonical (Quote : string → string) (e : Event) :
  String Quote e = canonical Quote e.
Proof.
  unfold String, canonical, set_flags. f_equal. f_equal.
  change Create with (2 ^ 0)%Z. change Remove with (2 ^ 2)%Z.
  change Write with (2 ^ 1)%Z. change Rename with (2 ^ 3)%Z.
  change Chmod with (2 ^ 4)%Z.
  rewrite !has_bit by done.
  unfold flag_names. rewrite !filter_cons, filter_nil. cbn [fst].
  generalize (Z.testbit (ev_Op e) 0), (Z.testbit (ev_Op e) 1),
    (Z.testbit (ev_Op e) 2), (Z.testbit (ev_Op e) 3), (Z.testbit (ev_Op e) 4).
  by intros [] [] [] [] [].
Qed.

Example String_of_two_flags :
  String Samples.bracket (mkEvent "/tmp/w/b.txt" (Z.lor Chmod Create))
  = "</tmp/w/b.txt>: CREATE|CHMOD".
Proof. reflexivity. Qed.

Example String_of_no_flag :
  String Samples.bracket (mkEvent "/tmp/w/b.txt" 0) = "</tmp/w/b.txt>: ".
Proof. reflexivity. Qed.

End StringFacts.

(** ** Registration and shutdown *)

Module WatcherFacts.
Import Watcher.

(** The returns of [Add]: an error, with the watcher left as it was, when
    the path is empty, when the path is already watched, and when the first
    snapshot fails (then with the error of the snapshot); when the snapshot
    comes back it stores a watch for the path with that snapshot and returns
    no error.  The case left is a snapshot that panics, see below. *)
Theorem Add_contract (fs : FS) (p : string) (w : Watcher) :
  (p = EmptyString → Add fs p w = Done (w, Some (New "path cannot be empty")))
  ∧ (p ≠ EmptyString → is_Some (watches w !! p) →
       Add fs p w = Done (w, Some (New "watch already exists")))
  ∧ (∀ nothing e, p ≠ EmptyString → watches w !! p = None →
       directoryMap fs p = Done (nothing, Some e) →
       Add fs p w = Done (w, Some e))
  ∧ (∀ baseline, p ≠ EmptyString → watches w !! p = None →
       directoryMap fs p = Done (baseline, None) →
       ∃ w1, Add fs p w = Done (w1, None)
         ∧ watches w1 = <[p := mkWatch p baseline]> (watches w)
         ∧ watches w1 !! p = Some (mkWatch p baseline)
         ∧ (∀ q, q ≠ p → watches w1 !! q = watches w !! q)
         ∧ Events w1 = Events w ∧ Errors w1 = Errors w
         ∧ pollFrequency w1 = pollFrequency w ∧ ticker w1 = ticker w
         ∧ isRunning w1 = isRunning w).
Proof.
  unfold Add. repeat split.
  - intros ->. done.
  - intros Hp [old Hold]. rewrite bool_decide_eq_false_2 by done.
    by rewrite Hold.
  - intros nothing e Hp Hfree Hsnap. rewrite bool_decide_eq_false_2 by done.
    by rewrite Hfree, Hsnap.
  - intros baseline Hp Hfree Hsnap. rewrite bool_decide_eq_false_2 by done.
    rewrite Hfree, Hsnap. simpl. eexists. split; [done|].
    simpl. repeat split; try done.
    + apply lookup_insert_eq.
    + intros q Hq. by apply lookup_insert_ne.
Qed.

Lemma Add_contract_witness :
  Add Samples.disk EmptyString Samples.fresh
  = Done (Samples.fresh, Some (New "path cannot be empty"))
  ∧ Add Samples.disk "/tmp/x" Samples.fresh
    = Done (Samples.fresh, Some (Samples.ENOENT "/tmp/x"))
  ∧ ∃ w1, Add Samples.disk "/tmp/w" Samples.fresh = Done (w1, None)
      ∧ watches w1 !! "/tmp/w" = Some (mkWatch "/tmp/w" Samples.w_snapshot)
      ∧ Add Samples.disk "/tmp/w" w1
        = Done (w1, Some (New "watch already exists")).
Proof.
  split; [|split].
  - by apply (proj1 (Add_contract Samples.disk EmptyString Samples.fresh)).
  - apply (proj1 (proj2 (proj2 (Add_contract Samples.disk "/tmp/x" Samples.fresh)))
             ∅ (Samples.ENOENT "/tmp/x")); [done|done|].
    vm_compute. reflexivity.
  - destruct (proj2 (proj2 (proj2 (Add_contract Samples.disk "/tmp/w" Samples.fresh)))
                Samples.w_snapshot) as (w1 & Hadd & Hall & Hnew & _);
      [done|done|vm_compute; reflexivity|].
    exists w1. split; [done|]. split; [done|].
    apply (proj1 (proj2 (Add_contract Samples.disk "/tmp/w" w1))); [done|].
    by rewrite Hnew.
Defined.

(** C6 at a directory that can be listed but whose entry cannot be
    stat'ed: the path is not empty, it is not watched and the first snapshot
    does not fail with an error, so that [Add] should store a watch and
    return nil; but the snapshot panics on the nil [os.FileInfo] of the
    entry, and [Add] with it: no watch is stored and nothing is returned. *)
Theorem Add_panics_in_locked_directory :
  "/tmp/locked" ≠ EmptyString
  ∧ watches Samples.fresh !! "/tmp/locked" = None
  ∧ Lstat Samples.locked_disk "/tmp/locked"
    = (Some (mkOsFileInfo "locked" 60 (Z.lor ModeDir 292)), None)
  ∧ (∀ n e, directoryMap Samples.locked_disk "/tmp/locked" ≠ Done (n, Some e))
  ∧ Add Samples.locked_disk "/tmp/locked" Samples.fresh = Panic nil_dereference.
Proof.
  split; [done|]. split; [reflexivity|]. split; [vm_compute; reflexivity|].
  split.
  - intros n e Hsnap.
    assert (directoryMap Samples.locked_disk "/tmp/locked" = Panic nil_dereference)
      as Hpanic by (vm_compute; reflexivity).
    rewrite Hpanic in Hsnap. discriminate.
  - vm_compute. reflexivity.
Qed.

(** Sending does not close a channel, and needs an open one. *)
Lemma send_open {A} (c c1 : chan A) x :
  send c x = Done c1 → closed c = false ∧ closed c1 = false.
Proof.
  unfold send. destruct (closed c); [done|]. by intros [= <-].
Qed.

Lemma send_all_closed {A} (xs : list A) (c c1 : chan A) :
  send_all c xs = Done c1 → closed c1 = closed c.
Proof.
  revert c. induction xs as [|x xs IH]; intros c; simpl.
  - by intros [= <-].
  - destruct (send c x) as [c2|] eqn:Hs; [|done]. simpl.
    intros Hrest. apply IH in Hrest. apply send_open in Hs as [-> <-]. done.
Qed.

Lemma poll_wired range fs cur w w1 :
  poll range fs cur w = Done w1 → wired w → wired w1.
Proof.
  unfold poll. destruct (directoryMap fs (w_path cur)) as [[n err]|]; [|done].
  simpl.
  destruct (match err with Some e => send (Errors w) e | None => Done (Errors w) end)
    as [errors|] eqn:Herr; [|done]. simpl.
  destruct (send_all (Events w) _) as [events|] eqn:Hev; [|done]. simpl.
  intros [= <-] (t & Ht & Hw). exists t. split; [done|]. simpl.
  apply send_all_closed in Hev. rewrite Hev.
  assert (closed errors = closed (Errors w)) as ->; [|done].
  destruct err as [e|].
  - apply send_open in Herr as [-> ->]. done.
  - by injection Herr as <-.
Qed.

Lemma poll_all_wired range fs order w w1 :
  poll_all range fs order w = Done w1 → wired w → wired w1.
Proof.
  revert w. induction order as [|cur order IH]; intros w; simpl.
  - by intros [= <-].
  - destruct (poll range fs cur w) as [w2|] eqn:Hp; [|done]. simpl.
    intros Hrest Hw. eapply IH; [done|]. by eapply poll_wired.
Qed.

Lemma Close_wired w w1 : Close w = Done w1 → wired w → wired w1.
Proof.
  unfold Close. intros Hc (t & Ht & Hw). rewrite Ht in Hc.
  destruct (isRunning w) eqn:Hrun;
    [|by injection Hc as <-; exists t; rewrite Hrun].
  destruct Hw as (Hstops & Hev & Her). simpl in Hc.
  unfold close in Hc. rewrite Hev, Her in Hc. simpl in Hc.
  injection Hc as <-. exists (Stop t). simpl. by rewrite Hstops.
Qed.

Lemma perform_wired s w w1 : perform s w = Done w1 → wired w → wired w1.
Proof.
  destruct s as [fs p|p|f| |range rangeW fs]; simpl.
  - unfold Add. case_bool_decide; [by intros [= <-]|].
    destruct (watches w !! p); [by intros [= <-]|].
    destruct (directoryMap fs p) as [[m [e|]]|]; simpl; [| |done];
      by intros [= <-].
  - unfold Remove. case_bool_decide; [by intros [= <-]|].
    destruct (watches w !! p); by intros [= <-].
  - by intros [= <-].
  - apply Close_wired.
  - apply poll_all_wired.
Qed.

Lemma perform_all_wired l w w1 :
  perform_all l w = Done w1 → wired w → wired w1.
Proof.
  revert w. induction l as [|s l IH]; intros w; simpl.
  - by intros [= <-].
  - destruct (perform s w) as [w2|] eqn:Hs; [|done]. simpl.
    intros Hrest Hw. eapply IH; [done|]. by eapply perform_wired.
Qed.

(** Every watcher made by [NewWatcher] is running or stopped as above. *)
Lemma reached_wired l w : reached l w → wired w.
Proof.
  intros (w0 & Hnew & Hrun). eapply perform_all_wired; [done|].
  injection Hnew as <-. by eexists.
Qed.

(** [Close] on a stopped watcher does nothing. *)
Lemma Close_stopped w : isRunning w = false → Close w = Done w.
Proof. unfold Close. by intros ->. Qed.

Lemma Close_times_stopped n w : isRunning w = false → Close_times n w = Done w.
Proof.
  intros Hw. induction n as [|n IH]; [done|].
  simpl. by rewrite Close_stopped.
Qed.

(** C7: on a running watcher the first [Close] stops the ticker, clears
    the running flag and closes both channels; any number of calls in a row
    does this once and does not panic, every later call leaving the watcher
    as it is. *)
Theorem Close_exactly_once (l : list step) (w : Watcher) (n : nat) :
  reached l w → isRunning w = true →
  ∃ t w1,
    ticker w = Some t
    ∧ Close w = Done w1
    ∧ w1 = mkWatcher (mkChan true (delivered (Events w)))
             (mkChan true (delivered (Errors w)))
             (pollFrequency w) (Some (Stop t)) (watches w) false
    ∧ stops (Stop t) = 1%nat
    ∧ Close_times n w1 = Done w1
    ∧ Close_times (S n) w = Done w1.
Proof.
  intros Hreach Hrun.
  destruct (reached_wired l w Hreach) as (t & Ht & Hw).
  rewrite Hrun in Hw. destruct Hw as (Hstops & Hev & Her).
  exists t. eexists. split; [done|].
  assert (Close w = Done (mkWatcher (mkChan true (delivered (Events w)))
             (mkChan true (delivered (Errors w)))
             (pollFrequency w) (Some (Stop t)) (watches w) false)) as Hclose.
  { unfold Close, close. by rewrite Hrun, Ht, Hev, Her. }
  split; [exact Hclose|]. split; [done|]. split; [by simpl; rewrite Hstops|].
  split.
  - by apply Close_times_stopped.
  - simpl. rewrite Hclose. simpl. by apply Close_times_stopped.
Qed.

Lemma Close_exactly_once_witness :
  ∃ t w1,
    ticker Samples.added = Some t
    ∧ Close Samples.added = Done w1
    ∧ w1 = mkWatcher (mkChan true (delivered (Events Samples.added)))
             (mkChan true (delivered (Errors Samples.added)))
             (pollFrequency Samples.added) (Some (Stop t))
             (watches Samples.added) false
    ∧ stops (Stop t) = 1%nat
    ∧ Close_times 2 w1 = Done w1
    ∧ Close_times 3 Samples.added = Done w1.
Proof.
  apply (Close_exactly_once
           [DoAdd Samples.disk "/tmp/w";
            DoTick map_to_list map_to_list Samples.disk]
           Samples.added 2).
  - exists Samples.fresh. split; vm_compute; reflexivity.
  - reflexivity.
Defined.

End WatcherFacts.

(** ** Snapshots *)

Module SnapshotFacts.
Import Filepath.

(** Induction over a tree and the trees listed in it. *)
Lemma tree_induction (P : tree → Prop) :
  (∀ name err, P (Missing name err)) →
  (∀ info err, P (Found info (inl err))) →
  (∀ info names, Forall P names → P (Found info (inr names))) →
  ∀ t, P t.
Proof.
  intros Hmissing Hunread Hdir.
  fix go 1. intros [name err|info [err|names]].
  - apply Hmissing.
  - apply Hunread.
  - apply Hdir. induction names as [|c names IH].
    + constructor.
    + constructor; [apply go|apply IH].
Qed.

Lemma replay_app cs1 cs2 m :
  replay (cs1 ++ cs2) m = replay cs1 m ≫= replay cs2.
Proof.
  revert m. induction cs1 as [|[[p f] err] cs1 IH]; intros m; [done|].
  simpl. destruct (visit p f err m) as [[m1 e]|]; [|done]. simpl. apply IH.
Qed.

(** [visit] returns nil, so [walk] goes through all the calls in order. *)
Lemma walk_replay t : ∀ p m,
  walk visit p t m = replay (calls p t) m ≫= λ m1, Done (m1, None).
Proof.
  induction t as [name err|info err|info names IH] using tree_induction;
    intros p m.
  - done.
  - simpl. by destruct (IsDir info).
  - simpl. destruct (IsDir info); [|done]. simpl.
    generalize (<[fi_Name info := mkFileInfo info p]> m). clear m.
    induction IH as [|c names Hc _ IHnames]; intros m; [done|].
    simpl. rewrite replay_app, Hc.
    destruct (replay (calls (Join p (entry_name c)) c) m) as [m2|]; [|done].
    simpl. destruct c; simpl; apply IHnames.
Qed.

(** The snapshot of a root that exists is the replay of the walk. *)
Lemma directoryMap_replay fs root info names :
  fs root = Found info names →
  directoryMap fs root
  = replay (calls root (fs root)) ∅ ≫= λ m, Done (m, None).
Proof.
  intros Hroot. unfold directoryMap, Lstat, Walk. rewrite walk_replay, Hroot.
  by destruct (replay _ _).
Qed.

(** A call without metadata makes [visit] dereference nil. *)
Lemma replay_panics cs m :
  Exists (λ c, seen c = None) cs → replay cs m = Panic nil_dereference.
Proof.
  revert m. induction cs as [|[[p f] err] cs IH]; intros m Hex.
  - by apply Exists_nil in Hex.
  - simpl. destruct f as [f|]; [|done]. simpl.
    apply Exists_cons in Hex as [Hhere|Hlater]; [done|]. by apply IH.
Qed.

Lemma replay_returns cs m :
  Forall (λ c, is_Some (seen c)) cs → ∃ m1, replay cs m = Done m1.
Proof.
  revert m. induction cs as [|[[p f] err] cs IH]; intros m Hall.
  - by eexists.
  - apply Forall_cons in Hall as [[v Hv] Hall]. simpl.
    destruct f as [f|]; [|done]. simpl. by apply IH.
Qed.

Lemma statable_calls t : ∀ p,
  statable t → Forall (λ c, is_Some (seen c)) (calls p t).
Proof.
  induction t as [name err|info err|info names IH] using tree_induction;
    intros p Hst.
  - done.
  - simpl. destruct (IsDir info); simpl; by repeat constructor.
  - simpl. destruct (IsDir info); simpl; [|by repeat constructor].
    constructor; [done|]. simpl in Hst.
    induction IH as [|c names Hc _ IHnames]; [constructor|].
    destruct Hst as [Hst Hrest]. simpl. apply Forall_app. split; auto.
Qed.

(** The part of C2 that holds: when every entry below an existing root can
    be stat'ed, a mapping comes back, also if directories below the root
    cannot be listed. *)
Lemma directoryMap_returns fs root :
  statable (fs root) → ∃ m, directoryMap fs root = Done (m, None).
Proof.
  intros Hst. destruct (fs root) as [|info names] eqn:Hroot; [done|].
  rewrite (directoryMap_replay fs root info names Hroot).
  destruct (replay_returns (calls root (fs root)) ∅) as [m Hm].
  { apply statable_calls. by rewrite Hroot. }
  exists m. by rewrite Hm.
Qed.

(** C2 at a directory that can be listed but whose entry cannot be
    stat'ed: the root passes the existence check, the walk hands the
    function a nil [os.FileInfo] together with the error, and the call
    [f.Name()] panics, so that no mapping is returned. *)
Theorem directoryMap_panics_in_locked_directory :
  Lstat Samples.locked_disk "/tmp/locked"
  = (Some (mkOsFileInfo "locked" 60 (Z.lor ModeDir 292)), None)
  ∧ calls "/tmp/locked" (Samples.locked_disk "/tmp/locked")
    = [("/tmp/locked", Some (mkOsFileInfo "locked" 60 (Z.lor ModeDir 292)), None);
       ("/tmp/locked/secret", None, Some (Samples.EACCES "/tmp/locked/secret"))]
  ∧ directoryMap Samples.locked_disk "/tmp/locked" = Panic nil_dereference.
Proof.
  split; [|split]; vm_compute; reflexivity.
Qed.

(** The same for every root: one entry that cannot be stat'ed below a root
    that exists makes the snapshot panic. *)
Lemma directoryMap_panics fs root info names :
  fs root = Found info names →
  Exists (λ c, seen c = None) (calls root (fs root)) →
  directoryMap fs root = Panic nil_dereference.
Proof.
  intros Hroot Hex. rewrite (directoryMap_replay fs root info names Hroot).
  by rewrite replay_panics.
Qed.

(** What a replay that returns has stored: the entries, one after the
    other, each under its base name. *)
Lemma replay_stores cs m0 m :
  replay cs m0 = Done m →
  m = foldl (λ acc v, <[Name v := v]> acc) m0 (omap seen cs).
Proof.
  revert m0. induction cs as [|[[p f] err] cs IH]; intros m0; simpl.
  - by intros [= <-].
  - destruct f as [f|]; [|done]. simpl. apply IH.
Qed.

Lemma stores_other (l : list FileInfo) (m0 : Snapshot) k :
  (∀ c, c ∈ l → Name c ≠ k) →
  foldl (λ acc v, <[Name v := v]> acc) m0 l !! k = m0 !! k.
Proof.
  revert m0. induction l as [|c l IH]; intros m0 Hl; [done|].
  simpl. rewrite IH.
  - apply lookup_insert_ne. apply Hl. by left.
  - intros c' Hc'. apply Hl. by right.
Qed.

(** C9: when two entries below a root have the same base name, the
    snapshot has exactly one entry for that name, stored under the base
    name, and it is the one the walk visits last. *)
Theorem later_entry_wins (fs : FS) (root : string) (m : Snapshot)
    (a b : FileInfo) (l1 l2 l3 : list FileInfo) :
  directoryMap fs root = Done (m, None) →
  entries fs root = (l1 ++ a :: l2 ++ b :: l3)%list →
  Name a = Name b →
  (∀ c, c ∈ l3 → Name c ≠ Name b) →
  m !! Name b = Some b
  ∧ filter (λ kv : string * FileInfo, fst kv = Name b) (map_to_list m)
    = [(Name b, b)]
  ∧ (a ≠ b → (Name a, a) ∉ map_to_list m).
Proof.
  intros Hsnap Hvisits Hsame Hlast.
  assert (m !! Name b = Some b) as Hb.
  { destruct (fs root) as [|info names] eqn:Hroot.
    - unfold directoryMap, Lstat in Hsnap. by rewrite Hroot in Hsnap.
    - rewrite (directoryMap_replay fs root info names Hroot) in Hsnap.
      destruct (replay _ _) as [m1|] eqn:Hreplay; [|done].
      injection Hsnap as ->. apply replay_stores in Hreplay.
      unfold entries in Hvisits. rewrite Hvisits in Hreplay.
      rewrite Hreplay.
      replace (l1 ++ a :: l2 ++ b :: l3)%list
        with ((l1 ++ a :: l2) ++ b :: l3)%list by (by rewrite <- app_assoc).
      rewrite foldl_app. simpl. rewrite stores_other by done.
      apply lookup_insert_eq. }
  split; [done|]. split.
  - by apply (range_lookup_Some m).
  - intros Hne Hin. apply elem_of_map_to_list in Hin.
    rewrite Hsame, Hb in Hin. by injection Hin as ->.
Qed.

Lemma later_entry_wins_witness :
  Samples.r_snapshot !! "x" = Some (Samples.x_in "d2" 14)
  ∧ filter (λ kv : string * FileInfo, fst kv = "x") (map_to_list Samples.r_snapshot)
    = [("x", Samples.x_in "d2" 14)]
  ∧ (Samples.x_in "d1" 12 ≠ Samples.x_in "d2" 14 →
     ("x", Samples.x_in "d1" 12) ∉ map_to_list Samples.r_snapshot).
Proof.
  apply (later_entry_wins Samples.twin_disk "/tmp/r" Samples.r_snapshot
           (Samples.x_in "d1" 12) (Samples.x_in "d2" 14)
           [mkFileInfo (mkOsFileInfo "r" 10 Samples.dir_mode) "/tmp/r";
            mkFileInfo (mkOsFileInfo "d1" 11 Samples.dir_mode) "/tmp/r/d1"]
           [mkFileInfo (mkOsFileInfo "d2" 13 Samples.dir_mode) "/tmp/r/d2"]
           []).
  - vm_compute. reflexivity.
  - vm_compute. reflexivity.
  - reflexivity.
  - intros c Hc. by apply elem_of_nil in Hc.
Defined.

End SnapshotFacts.

(** ** The tick *)

Module TickFacts.

(** The error return of [directoryMap] comes with the nil map. *)
Lemma directoryMap_error fs p n e :
  directoryMap fs p = Done (n, Some e) → n = ∅ ∧ Lstat fs p = (None, Some e).
Proof.
  unfold directoryMap, Lstat. destruct (fs p) as [name err|info names].
  - by intros [= <- <-].
  - destruct (Filepath.Walk _ _ _ _) as [[m err]|]; done.
Qed.

Lemma send_all_delivers {A} (xs : list A) (c : chan A) :
  closed c = false → send_all c xs = Done (mkChan false (delivered c ++ xs)).
Proof.
  revert c. induction xs as [|x xs IH]; intros [cl sent] Hc; simpl in *; subst.
  - by rewrite app_nil_r.
  - unfold send. simpl. rewrite IH by done. simpl. by rewrite <- app_assoc.
Qed.

(** With nothing in the new snapshot, the diff is one Remove event for
    each entry of the old one. *)
Lemma events_against_nothing (files : Snapshot) rf :
  Diff.events files ∅ [] rf = map (λ kv, mkEvent (path (snd kv)) Remove) rf.
Proof.
  unfold Diff.events. simpl.
  induction rf as [|[k v] rf IH]; [done|]. simpl. by rewrite IH.
Qed.

(** A tick after [Add]: the snapshot of [/tmp/w] succeeds, the changes of
    the three files are sent and the new snapshot is stored. *)
Example tick_reports_changes :
  ∃ w1 w2 n,
    Watcher.Add Samples.disk "/tmp/w" Samples.fresh = Done (w1, None)
    ∧ Watcher.tick map_to_list map_to_list Samples.later_disk w1 = Done w2
    ∧ delivered (Events w2)
      = [mkEvent "/tmp/w/a.txt" Write; mkEvent "/tmp/w/a.txt" Chmod;
         mkEvent "/tmp/w/b.txt" Create; mkEvent "/tmp/w/c.txt" Remove]
    ∧ delivered (Errors w2) = []
    ∧ watches w2 !! "/tmp/w" = Some (mkWatch "/tmp/w" n)
    ∧ directoryMap Samples.later_disk "/tmp/w" = Done (n, None).
Proof.
  do 3 eexists. split; [vm_compute; reflexivity|].
  split; [vm_compute; reflexivity|].
  repeat split; vm_compute; reflexivity.
Qed.

(** C1 as stated fails: with [/tmp/w] gone, the tick sends the error, but
    it also sends a Remove event for each of the two files of the stored
    snapshot and stores the empty snapshot in its place. *)
Lemma failed_snapshot_is_not_abandoned :
  directoryMap Samples.void "/tmp/w" = Done (∅, Some (Samples.ENOENT "/tmp/w"))
  ∧ ∃ w1,
      Watcher.poll map_to_list Samples.void Samples.watched_w Samples.watching = Done w1
      ∧ delivered (Errors w1) = [Samples.ENOENT "/tmp/w"]
      ∧ delivered (Events w1)
        = [mkEvent "/tmp/w/c.txt" Remove; mkEvent "/tmp/w/a.txt" Remove]
      ∧ delivered (Events w1) ≠ delivered (Events Samples.watching)
      ∧ watches w1 !! "/tmp/w" = Some (mkWatch "/tmp/w" ∅)
      ∧ watches w1 !! "/tmp/w" ≠ watches Samples.watching !! "/tmp/w".
Proof.
  split; [vm_compute; reflexivity|].
  eexists. split; [vm_compute; reflexivity|].
  repeat split; try (vm_compute; reflexivity); vm_compute; discriminate.
Qed.

(** C1, amended: when the snapshot of a watch fails, the error is sent on
    the error channel, and the tick goes on with the empty snapshot in the
    place of the new one: it sends one Remove event for each entry of the
    stored snapshot, with the path of that entry, and no other event, and it
    stores the empty snapshot for the watch. *)
Theorem failed_snapshot_removes_all
    (range : Snapshot → list (string * FileInfo)) (fs : FS)
    (curWatch : watch) (w : Watcher) (n : Snapshot) (e : error) :
  (∀ m, Diff.ranges m (range m)) →
  closed (Errors w) = false → closed (Events w) = false →
  directoryMap fs (w_path curWatch) = Done (n, Some e) →
  ∃ w1,
    Watcher.poll range fs curWatch w = Done w1
    ∧ Errors w1 = mkChan false (delivered (Errors w) ++ [e])
    ∧ Events w1
      = mkChan false
          (delivered (Events w)
           ++ map (λ kv, mkEvent (path (snd kv)) Remove) (range (files curWatch)))
    ∧ range (files curWatch) ≡ₚ map_to_list (files curWatch)
    ∧ watches w1
      = <[w_path curWatch := mkWatch (w_path curWatch) ∅]> (watches w).
Proof.
  intros Hrange Herrs Hevs Hsnap.
  destruct (directoryMap_error _ _ _ _ Hsnap) as [-> _].
  assert (range ∅ = []) as Hnone.
  { apply Permutation_nil_r. rewrite <- (map_to_list_empty (A := FileInfo)).
    apply Hrange. }
  unfold Watcher.poll. rewrite Hsnap. simpl.
  unfold send at 1. rewrite Herrs. simpl.
  rewrite Hnone, events_against_nothing, send_all_delivers by done. simpl.
  eexists. split; [done|]. simpl. repeat split. apply Hrange.
Qed.

Lemma failed_snapshot_removes_all_witness :
  ∃ w1,
    Watcher.poll map_to_list Samples.void Samples.watched_w Samples.watching = Done w1
    ∧ Errors w1 = mkChan false ([] ++ [Samples.ENOENT "/tmp/w"])
    ∧ Events w1
      = mkChan false
          ([] ++ map (λ kv, mkEvent (path (snd kv)) Remove)
                   (map_to_list Samples.before))
    ∧ map_to_list Samples.before ≡ₚ map_to_list Samples.before
    ∧ watches w1 = <["/tmp/w" := mkWatch "/tmp/w" ∅]> (watches Samples.watching).
Proof.
  apply (failed_snapshot_removes_all map_to_list Samples.void
           Samples.watched_w Samples.watching ∅ (Samples.ENOENT "/tmp/w")).
  - intros m. unfold Diff.ranges. reflexivity.
  - reflexivity.
  - reflexivity.
  - vm_compute. reflexivity.
Defined.

End TickFacts.

(** * Further properties *)

(** ** Registration *)

Module RegistrationFacts.
Import Watcher.

(** [Remove] refuses the empty path and leaves the watcher as it is; for
    any other path it returns nil, the path is not watched afterwards, the
    other watches and fields are untouched, and a path that was not
    watched leaves the watcher as it is. *)
Theorem Remove_contract (p : string) (w : Watcher) :
  (p = EmptyString →
     Remove p w = Done (w, Some (New "can't remove an empty path")))
  ∧ (p ≠ EmptyString →
     ∃ w1, Remove p w = Done (w1, None)
       ∧ watches w1 = delete p (watches w)
       ∧ watches w1 !! p = None
       ∧ (∀ q, q ≠ p → watches w1 !! q = watches w !! q)
       ∧ Events w1 = Events w ∧ Errors w1 = Errors w
       ∧ pollFrequency w1 = pollFrequency w ∧ ticker w1 = ticker w
       ∧ isRunning w1 = isRunning w
       ∧ (watches w !! p = None → w1 = w)).
Proof.
  unfold Remove. split.
  - by intros ->.
  - intros Hp. rewrite bool_decide_eq_false_2 by done.
    destruct (watches w !! p) as [c|] eqn:Hw.
    + eexists. split; [done|]. simpl.
      split; [done|]. split; [apply lookup_delete_eq|].
      split; [intros q Hq; by apply lookup_delete_ne|]. by repeat split.
    + exists w. split; [done|]. split; [by rewrite delete_id|].
      by repeat split.
Qed.

Lemma Remove_contract_witness :
  Remove EmptyString Samples.added
  = Done (Samples.added, Some (New "can't remove an empty path"))
  ∧ ∃ w1, Remove "/tmp/w" Samples.added = Done (w1, None)
      ∧ watches w1 !! "/tmp/w" = None
      ∧ Remove "/tmp/w" w1 = Done (w1, None).
Proof.
  split.
  - by apply (proj1 (Remove_contract EmptyString Samples.added)).
  - destruct (proj2 (Remove_contract "/tmp/w" Samples.added))
      as (w1 & Hrem & _ & Hgone & _); [done|].
    exists w1. split; [done|]. split; [done|].
    destruct (proj2 (Remove_contract "/tmp/w" w1))
      as (w2 & Hagain & _ & _ & _ & _ & _ & _ & _ & _ & Hsame); [done|].
    by rewrite Hagain, (Hsame Hgone).
Defined.

(** [Remove] undoes [Add]: adding a path that was not watched and then
    removing it gives back the watcher as it was before. *)
Theorem Remove_undoes_Add (fs : FS) (p : string) (w w1 : Watcher) :
  watches w !! p = None →
  Add fs p w = Done (w1, None) →
  Remove p w1 = Done (w, None).
Proof.
  intros Hfree. unfold Add, Remove.
  case_bool_decide as Hp; [done|]. rewrite Hfree.
  destruct (directoryMap fs p) as [[baseline [e|]]|]; simpl; [done| |done].
  intros [= <-]. simpl. rewrite lookup_insert_eq.
  destruct w as [ev er pf tk ws run]. unfold set_watches. simpl in *.
  by rewrite delete_insert_id.
Qed.

Lemma Remove_undoes_Add_witness :
  Remove "/tmp/w" Samples.added = Done (Samples.fresh, None).
Proof.
  apply (Remove_undoes_Add Samples.disk "/tmp/w" Samples.fresh Samples.added).
  - reflexivity.
  - vm_compute. reflexivity.
Defined.

(** The snapshot of a stored watch does not change the period. *)
Lemma poll_ticker range fs cur w w1 :
  poll range fs cur w = Done w1 → ticker w1 = ticker w.
Proof.
  unfold poll. destruct (directoryMap fs (w_path cur)) as [[n err]|]; [|done].
  simpl. destruct (match err with Some e => _ | None => _ end); [|done].
  simpl. destruct (send_all _ _); [|done]. simpl. by intros [= <-].
Qed.

Lemma poll_all_ticker range fs order w w1 :
  poll_all range fs order w = Done w1 → ticker w1 = ticker w.
Proof.
  revert w. induction order as [|cur order IH]; intros w; simpl.
  - by intros [= <-].
  - destruct (poll range fs cur w) as [w2|] eqn:Hp; [|done]. simpl.
    intros Hrest. rewrite (IH _ Hrest). by eapply poll_ticker.
Qed.

Lemma perform_period s w w1 t :
  perform s w = Done w1 → ticker w = Some t →
  ∃ t1, ticker w1 = Some t1 ∧ period t1 = period t.
Proof.
  destruct s as [fs p|p|f| |range rangeW fs]; simpl; intros Hs Ht.
  - unfold Add in Hs. case_bool_decide.
    { injection Hs as <-. by exists t. }
    destruct (watches w !! p).
    { injection Hs as <-. by exists t. }
    destruct (directoryMap fs p) as [[m [e|]]|]; simpl in Hs; [| |done];
      injection Hs as <-; by exists t.
  - unfold Remove in Hs. case_bool_decide.
    { injection Hs as <-. by exists t. }
    destruct (watches w !! p); injection Hs as <-; by exists t.
  - injection Hs as <-. by exists t.
  - unfold Close in Hs. rewrite Ht in Hs. destruct (isRunning w).
    + simpl in Hs. destruct (close (Events w)); [|done]. simpl in Hs.
      destruct (close (Errors w)); [|done]. simpl in Hs.
      injection Hs as <-. by exists (Stop t).
    + injection Hs as <-. by exists t.
  - apply poll_all_ticker in Hs. exists t. by rewrite Hs.
Qed.

Lemma perform_all_period l w w1 t :
  perform_all l w = Done w1 → ticker w = Some t →
  ∃ t1, ticker w1 = Some t1 ∧ period t1 = period t.
Proof.
  revert w t. induction l as [|s l IH]; intros w t; simpl.
  - intros [= <-] Ht. by exists t.
  - destruct (perform s w) as [w2|] eqn:Hs; [|done]. simpl. intros Hrest Ht.
    destruct (perform_period s w w2 t Hs Ht) as (t2 & Ht2 & Hper2).
    destruct (IH w2 t2 Hrest Ht2) as (t1 & Ht1 & Hper1).
    exists t1. split; [done|]. by rewrite Hper1.
Qed.

(** [PollFrequency] has no effect on the ticker: whatever is done with a
    watcher made by [NewWatcher], its ticker keeps the period of 250
    milliseconds it was started with. *)
Theorem ticker_keeps_default_period (l : list step) (w : Watcher) :
  reached l w →
  ∃ t, ticker w = Some t ∧ period t = 250000000%Z.
Proof.
  intros (w0 & Hnew & Hrun). injection Hnew as <-.
  by apply (perform_all_period l _ w (mkTicker defaultPollFrequency 0) Hrun).
Qed.

Lemma ticker_keeps_default_period_witness :
  ∃ t, ticker (mkWatcher make make 5 (Some (mkTicker defaultPollFrequency 0))
                 (watches Samples.added) true) = Some t
     ∧ period t = 250000000%Z.
Proof.
  apply (ticker_keeps_default_period
           [DoPollFrequency 5; DoAdd Samples.disk "/tmp/w"]).
  exists Samples.fresh. split; vm_compute; reflexivity.
Defined.

End RegistrationFacts.

(** ** What a snapshot holds *)

Module SnapshotContents.
Import Filepath.

(** [directoryMap] returns an error exactly when the [Lstat] of the root
    fails: the error is that of [Lstat], the map is nil, and nothing the
    walk meets is ever returned as an error. *)
Theorem directoryMap_error_iff (fs : FS) (p : string) (n : Snapshot) (e : error) :
  directoryMap fs p = Done (n, Some e) ↔ n = ∅ ∧ Lstat fs p = (None, Some e).
Proof.
  unfold directoryMap, Lstat. destruct (fs p) as [name err|info names].
  - split.
    + by intros [= <- <-].
    + by intros [-> [= <-]].
  - split; [|by intros [_ ?]].
    destruct (Walk _ _ _ _) as [[m err]|]; done.
Qed.

(** A root that is a file, or a directory that cannot be listed, gives the
    snapshot with the root alone, under its base name, and no error. *)
Theorem directoryMap_of_single_entry (fs : FS) (root : string)
    (info : OsFileInfo) (names : error + list tree) :
  fs root = Found info names →
  IsDir info = false ∨ (∃ e, names = inl e) →
  directoryMap fs root = Done ({[fi_Name info := mkFileInfo info root]}, None).
Proof.
  intros Hroot Hleaf.
  rewrite (SnapshotFacts.directoryMap_replay fs root info names Hroot), Hroot.
  simpl. destruct Hleaf as [Hfile|[e ->]].
  - rewrite Hfile. simpl. by rewrite insert_empty.
  - destruct (IsDir info); simpl; by rewrite insert_empty.
Qed.

Lemma directoryMap_of_single_entry_witness :
  directoryMap MoreSamples.file_disk "/tmp/w/a.txt"
  = Done ({["a.txt" := Samples.a_txt]}, None)
  ∧ directoryMap MoreSamples.private_disk "/tmp/private"
    = Done ({["private" := mkFileInfo MoreSamples.private_info "/tmp/private"]},
            None).
Proof.
  split.
  - apply (directoryMap_of_single_entry MoreSamples.file_disk "/tmp/w/a.txt"
             (osinfo Samples.a_txt) (inr [])); [reflexivity|].
    left. reflexivity.
  - apply (directoryMap_of_single_entry MoreSamples.private_disk "/tmp/private"
             MoreSamples.private_info
             (inl (PathError "open" "/tmp/private" "permission denied")));
      [reflexivity|].
    right. by eexists.
Defined.

(** A snapshot that came back is the entries of the walk stored in order. *)
Lemma snapshot_stores fs root m :
  directoryMap fs root = Done (m, None) →
  m = foldl (λ acc v, <[Name v := v]> acc) ∅ (entries fs root).
Proof.
  intros Hsnap. destruct (fs root) as [|info names] eqn:Hroot.
  - unfold directoryMap, Lstat in Hsnap. by rewrite Hroot in Hsnap.
  - rewrite (SnapshotFacts.directoryMap_replay fs root info names Hroot) in Hsnap.
    destruct (replay _ _) as [m1|] eqn:Hreplay; [|done].
    injection Hsnap as ->. by apply SnapshotFacts.replay_stores in Hreplay.
Qed.

Lemma stores_lookup (l : list FileInfo) (m0 : Snapshot) k v :
  foldl (λ acc v, <[Name v := v]> acc) m0 l !! k = Some v →
  (v ∈ l ∧ Name v = k) ∨ m0 !! k = Some v.
Proof.
  revert m0. induction l as [|c l IH]; intros m0; simpl; [by right|].
  intros Hk. destruct (IH _ Hk) as [[Hin Hname]|Hfirst].
  - left. split; [by right|done].
  - apply lookup_insert_Some in Hfirst as [[Hname <-]|[_ Hold]].
    + left. split; [by left|done].
    + by right.
Qed.

Lemma stores_keeps (l : list FileInfo) (m0 : Snapshot) k :
  is_Some (m0 !! k) → is_Some (foldl (λ acc v, <[Name v := v]> acc) m0 l !! k).
Proof.
  revert m0. induction l as [|c l IH]; intros m0 Hk; [done|].
  simpl. apply IH. apply lookup_insert_is_Some.
  destruct (decide (Name c = k)); [by left|by right].
Qed.

Lemma stores_covers (l : list FileInfo) (m0 : Snapshot) v :
  v ∈ l → is_Some (foldl (λ acc v, <[Name v := v]> acc) m0 l !! Name v).
Proof.
  revert m0. induction l as [|c l IH]; intros m0 Hin.
  - by apply elem_of_nil in Hin.
  - simpl. apply elem_of_cons in Hin as [->|Hin].
    + apply stores_keeps. rewrite lookup_insert_eq. by eexists.
    + by apply IH.
Qed.

(** A snapshot is keyed by base names: every key is the base name of the
    entry stored under it, the stored entries are entries the walk visited,
    every visited entry has its base name among the keys, and so has the
    root itself: a snapshot that came back is never empty. *)
Theorem snapshot_keys_are_base_names (fs : FS) (root : string) (m : Snapshot) :
  directoryMap fs root = Done (m, None) →
  (∀ k v, m !! k = Some v → Name v = k ∧ v ∈ entries fs root)
  ∧ (∀ v, v ∈ entries fs root → is_Some (m !! Name v))
  ∧ (∃ info names, fs root = Found info names ∧ is_Some (m !! fi_Name info))
  ∧ m ≠ ∅.
Proof.
  intros Hsnap. pose proof (snapshot_stores fs root m Hsnap) as Hm.
  assert (∀ v, v ∈ entries fs root → is_Some (m !! Name v)) as Hcover.
  { intros v Hv. rewrite Hm. by apply stores_covers. }
  assert (∃ info names, fs root = Found info names
                        ∧ is_Some (m !! fi_Name info)) as Hroot.
  { destruct (fs root) as [|info names] eqn:Hroot.
    - unfold directoryMap, Lstat in Hsnap. by rewrite Hroot in Hsnap.
    - exists info, names. split; [done|].
      apply (Hcover (mkFileInfo info root)).
      unfold entries. rewrite Hroot. simpl.
      destruct (IsDir info); simpl; [|by left].
      destruct names; simpl; by left. }
  split; [|split; [done|split; [done|]]].
  - intros k v Hk. rewrite Hm in Hk.
    apply stores_lookup in Hk as [[Hin Hname]|Hempty]; [done|].
    by rewrite lookup_empty in Hempty.
  - destruct Hroot as (info & names & _ & [v Hv]). intros ->.
    by rewrite lookup_empty in Hv.
Qed.

Lemma snapshot_keys_are_base_names_witness :
  (∀ k v, Samples.r_snapshot !! k = Some v →
     Name v = k ∧ v ∈ entries Samples.twin_disk "/tmp/r")
  ∧ (∀ v, v ∈ entries Samples.twin_disk "/tmp/r" →
       is_Some (Samples.r_snapshot !! Name v))
  ∧ (∃ info names, Samples.twin_disk "/tmp/r" = Found info names
       ∧ is_Some (Samples.r_snapshot !! fi_Name info))
  ∧ Samples.r_snapshot ≠ ∅.
Proof.
  apply (snapshot_keys_are_base_names Samples.twin_disk "/tmp/r").
  vm_compute. reflexivity.
Defined.

(** [Join] cleans what it joins, so that a root given with a slash at its
    end, the root [.] and the root [/] do not show in the paths below. *)
Example Join_cleans :
  Join "/tmp/w" "a.txt" = "/tmp/w/a.txt"
  ∧ Join "/tmp/w/" "a.txt" = "/tmp/w/a.txt"
  ∧ Join "." "a.txt" = "a.txt"
  ∧ Join "/" "a.txt" = "/a.txt"
  ∧ Join "/tmp/w/d/.." "a.txt" = "/tmp/w/a.txt".
Proof. repeat split. Qed.

Example snapshot_of_root_with_slash :
  ∃ m, directoryMap
         (λ p, if bool_decide (p = "/tmp/w/") then Samples.tmp_w
               else Missing p (Samples.ENOENT p)) "/tmp/w/" = Done (m, None)
     ∧ path <$> m !! "w" = Some "/tmp/w/"
     ∧ path <$> m !! "a.txt" = Some "/tmp/w/a.txt".
Proof. eexists. split; [vm_compute; reflexivity|]. split; vm_compute; reflexivity. Qed.

(** Every call of the walk that brings metadata is the call for the path
    the walk started at, or its path is the path of a directory called
    before, joined with the base name of the entry. *)
Lemma calls_joined t : ∀ p c f,
  c ∈ calls p t → snd (fst c) = Some f →
  (fst (fst c) = p ∧ fi_Name f = entry_name t)
  ∨ ∃ pp pf pe, (pp, Some pf, pe) ∈ calls p t ∧ IsDir pf = true
      ∧ fst (fst c) = Join pp (fi_Name f).
Proof.
  induction t as [name err|info err|info names IH]
    using SnapshotFacts.tree_induction; intros p c f Hc Hf.
  - apply list_elem_of_singleton in Hc as ->. done.
  - simpl in Hc. destruct (IsDir info); simpl in Hc;
      apply list_elem_of_singleton in Hc as ->; injection Hf as <-; by left.
  - simpl in Hc. destruct (IsDir info) eqn:Hdir; simpl in Hc;
      [|apply list_elem_of_singleton in Hc as ->; injection Hf as <-; by left].
    apply elem_of_cons in Hc as [->|Hc]; [injection Hf as <-; by left|].
    right. simpl. rewrite Hdir. simpl.
    apply list_elem_of_In, in_flat_map in Hc as (child & Hchild & Hc).
    apply list_elem_of_In in Hc. rewrite Forall_forall in IH.
    destruct (IH child (proj2 (list_elem_of_In _ _) Hchild) _ c f Hc Hf)
      as [[Hpath Hname]|(pp & pf & pe & Hparent & Hpdir & Hpath)].
    + exists p, info, None. split; [by left|]. split; [done|].
      by rewrite Hpath, Hname.
    + exists pp, pf, pe. split; [|done]. right.
      apply list_elem_of_In, in_flat_map. exists child. split; [done|].
      by apply list_elem_of_In.
Qed.

(** The paths in a snapshot are built by joining: each is the root as it
    was given, or the path of a directory the walk visited joined, by
    [filepath.Join], with the base name of the entry. *)
Theorem snapshot_paths_are_joined (fs : FS) (root : string) (m : Snapshot) k v :
  directoryMap fs root = Done (m, None) →
  m !! k = Some v →
  path v = root
  ∨ ∃ u, u ∈ entries fs root ∧ IsDir (osinfo u) = true
      ∧ path v = Join (path u) (Name v).
Proof.
  intros Hsnap Hk. rewrite (snapshot_stores fs root m Hsnap) in Hk.
  apply stores_lookup in Hk as [[Hin _]|Hempty];
    [|by rewrite lookup_empty in Hempty].
  unfold entries in Hin.
  apply list_elem_of_omap in Hin as ([[p f] err] & Hc & Hseen).
  destruct f as [f|]; [|done]. injection Hseen as <-. simpl.
  destruct (calls_joined _ _ _ f Hc eq_refl)
    as [[Hpath _]|(pp & pf & pe & Hparent & Hdir & Hpath)]; [by left|].
  right. exists (mkFileInfo pf pp). split; [|done].
  unfold entries. apply list_elem_of_omap. by exists (pp, Some pf, pe).
Qed.

Lemma snapshot_paths_are_joined_witness :
  path (Samples.x_in "d2" 14) = "/tmp/r"
  ∨ ∃ u, u ∈ entries Samples.twin_disk "/tmp/r" ∧ IsDir (osinfo u) = true
      ∧ path (Samples.x_in "d2" 14) = Join (path u) (Name (Samples.x_in "d2" 14)).
Proof.
  apply (snapshot_paths_are_joined Samples.twin_disk "/tmp/r"
           Samples.r_snapshot "x" (Samples.x_in "d2" 14));
    vm_compute; reflexivity.
Defined.

End SnapshotContents.

(** ** More on the diff *)

Module DiffContents.
Import Diff.

(** An entry that is in both snapshots with the same modification time and
    the same mode gets no event, whatever else differs (its path, say); a
    change of the modification time alone gives one Write event and a change
    of the mode alone one Chmod event, with the new path.  The events counted
    are those the tick sends: without their tags they are the events of the
    diff. *)
Theorem single_change_events (files n : Snapshot) rn rf k f v :
  ranges n rn → ranges files rf →
  files !! k = Some f → n !! k = Some v →
  map snd (tagged files n rn rf) = events files n rn rf
  ∧ (ModTime f = ModTime v → Mode f = Mode v →
     events_of k (tagged files n rn rf) = [])
  ∧ (ModTime f ≠ ModTime v → Mode f = Mode v →
     events_of k (tagged files n rn rf) = [mkEvent (path v) Write])
  ∧ (ModTime f = ModTime v → Mode f ≠ Mode v →
     events_of k (tagged files n rn rf) = [mkEvent (path v) Chmod]).
Proof.
  unfold ranges. intros Hn Hf Hold Hnew.
  split; [apply DiffFacts.tagged_events|].
  rewrite DiffFacts.events_of_tagged.
  rewrite (range_lookup_Some n rn k v), (range_lookup_Some files rf k f) by done.
  simpl. rewrite Hold, Hnew. repeat split; intros Ht Hm.
  - by rewrite !bool_decide_eq_false_2 by (intros ?; done).
  - rewrite bool_decide_eq_true_2 by done.
    by rewrite bool_decide_eq_false_2 by (intros ?; done).
  - rewrite bool_decide_eq_false_2 by (intros ?; done).
    by rewrite bool_decide_eq_true_2 by done.
Qed.

Lemma single_change_events_witness :
  map snd (tagged {["x" := Samples.x_in "d1" 12]} {["x" := Samples.x_in "d1" 13]}
             (map_to_list ({["x" := Samples.x_in "d1" 13]} : Snapshot))
             (map_to_list ({["x" := Samples.x_in "d1" 12]} : Snapshot)))
  = events {["x" := Samples.x_in "d1" 12]} {["x" := Samples.x_in "d1" 13]}
      (map_to_list ({["x" := Samples.x_in "d1" 13]} : Snapshot))
      (map_to_list ({["x" := Samples.x_in "d1" 12]} : Snapshot))
  ∧ events_of "x" (tagged {["x" := Samples.x_in "d1" 12]} {["x" := Samples.x_in "d2" 12]}
                     (map_to_list ({["x" := Samples.x_in "d2" 12]} : Snapshot))
                     (map_to_list ({["x" := Samples.x_in "d1" 12]} : Snapshot))) = []
  ∧ events_of "x" (tagged {["x" := Samples.x_in "d1" 12]} {["x" := Samples.x_in "d1" 13]}
                     (map_to_list ({["x" := Samples.x_in "d1" 13]} : Snapshot))
                     (map_to_list ({["x" := Samples.x_in "d1" 12]} : Snapshot)))
    = [mkEvent "/tmp/r/d1/x" Write].
Proof.
  split; [|split].
  - apply (proj1 (single_change_events
                    {["x" := Samples.x_in "d1" 12]} {["x" := Samples.x_in "d1" 13]}
                    _ _ "x" (Samples.x_in "d1" 12) (Samples.x_in "d1" 13)
                    ltac:(DiffFacts.canonical_order)
                    ltac:(DiffFacts.canonical_order)
                    ltac:(reflexivity) ltac:(reflexivity))).
  - apply (proj1 (proj2 (single_change_events
                    {["x" := Samples.x_in "d1" 12]} {["x" := Samples.x_in "d2" 12]}
                    _ _ "x" (Samples.x_in "d1" 12) (Samples.x_in "d2" 12)
                    ltac:(DiffFacts.canonical_order)
                    ltac:(DiffFacts.canonical_order)
                    ltac:(reflexivity) ltac:(reflexivity))));
      reflexivity.
  - apply (proj1 (proj2 (proj2 (single_change_events
                    {["x" := Samples.x_in "d1" 12]} {["x" := Samples.x_in "d1" 13]}
                    _ _ "x" (Samples.x_in "d1" 12) (Samples.x_in "d1" 13)
                    ltac:(DiffFacts.canonical_order)
                    ltac:(DiffFacts.canonical_order)
                    ltac:(reflexivity) ltac:(reflexivity)))));
      vm_compute; congruence.
Defined.

Lemma flat_map_nil {A B} (g : A → list B) (l : list A) :
  flat_map g l = [] ↔ ∀ x, x ∈ l → g x = [].
Proof.
  induction l as [|a l IH]; simpl.
  - split; [|done]. intros _ x Hx. by apply elem_of_nil in Hx.
  - split.
    + intros Hnil. apply app_eq_nil in Hnil as [Ha Hl].
      intros x Hx. apply elem_of_cons in Hx as [->|Hx]; [done|].
      by apply IH.
    + intros Hall. rewrite (Hall a) by left. simpl.
      apply IH. intros x Hx. apply Hall. by right.
Qed.

Lemma modified_nil (files : Snapshot) k v :
  modified files (k, v) = [] ↔
  ∃ f, files !! k = Some f ∧ ModTime f = ModTime v ∧ Mode f = Mode v.
Proof.
  simpl. destruct (files !! k) as [f|].
  - split.
    + intros Hnil. apply app_eq_nil in Hnil as [Ht Hm].
      exists f. split; [done|]. split.
      * destruct (decide (ModTime f = ModTime v)) as [|Hne]; [done|].
        by rewrite bool_decide_eq_true_2 in Ht.
      * destruct (decide (Mode f = Mode v)) as [|Hne]; [done|].
        by rewrite bool_decide_eq_true_2 in Hm.
    + intros (f' & [= <-] & Ht & Hm).
      by rewrite !bool_decide_eq_false_2 by (intros ?; done).
  - split; [done|]. by intros (f & ? & _).
Qed.

Lemma deleted_nil (n : Snapshot) k v :
  deleted n (k, v) = [] ↔ is_Some (n !! k).
Proof.
  simpl. destruct (n !! k) as [x|].
  - split; [by eexists|done].
  - split; [done|]. by intros [x ?].
Qed.

(** A tick is silent exactly when nothing it looks at has changed: the
    diff is empty if and only if the two snapshots have the same names and
    every name has the same modification time and mode in both. *)
Theorem silent_iff_unchanged (files n : Snapshot) rn rf :
  ranges n rn → ranges files rf →
  events files n rn rf = [] ↔
  (∀ k, is_Some (files !! k) ↔ is_Some (n !! k))
  ∧ (∀ k f v, files !! k = Some f → n !! k = Some v →
       ModTime f = ModTime v ∧ Mode f = Mode v).
Proof.
  unfold ranges, events. intros Hn Hf. split.
  - intros Hnil. apply app_eq_nil in Hnil as [Hmod Hdel].
    rewrite flat_map_nil in Hmod. rewrite flat_map_nil in Hdel.
    assert (∀ k v, n !! k = Some v →
              ∃ f, files !! k = Some f ∧ ModTime f = ModTime v ∧ Mode f = Mode v)
      as Hnew.
    { intros k v Hk. apply modified_nil. apply Hmod. by apply (elem_of_range n). }
    split.
    + intros k. split.
      * intros [f Hk]. apply (deleted_nil n k f). apply Hdel.
        by apply (elem_of_range files).
      * intros [v Hk]. destruct (Hnew k v Hk) as (f & Hold & _). by eexists.
    + intros k f v Hold Hk. destruct (Hnew k v Hk) as (f' & Hold' & Ht & Hm).
      rewrite Hold in Hold'. by injection Hold' as <-.
  - intros [Hnames Hsame].
    assert (flat_map (modified files) rn = []) as ->.
    { apply flat_map_nil. intros [k v] Hkv.
      apply (elem_of_range n) in Hkv; [|done]. apply modified_nil.
      destruct (proj2 (Hnames k)) as [f Hold]; [by eexists|].
      exists f. split; [done|]. by apply (Hsame k). }
    apply flat_map_nil. intros [k f] Hkf.
    apply (elem_of_range files) in Hkf; [|done]. apply deleted_nil.
    apply Hnames. by eexists.
Qed.

Lemma silent_iff_unchanged_witness :
  events {["x" := Samples.x_in "d1" 12]} {["x" := Samples.x_in "d2" 12]}
    (map_to_list ({["x" := Samples.x_in "d2" 12]} : Snapshot))
    (map_to_list ({["x" := Samples.x_in "d1" 12]} : Snapshot)) = [] ↔
  (∀ k, is_Some (({["x" := Samples.x_in "d1" 12]} : Snapshot) !! k)
        ↔ is_Some (({["x" := Samples.x_in "d2" 12]} : Snapshot) !! k))
  ∧ (∀ k f v, ({["x" := Samples.x_in "d1" 12]} : Snapshot) !! k = Some f →
       ({["x" := Samples.x_in "d2" 12]} : Snapshot) !! k = Some v →
       ModTime f = ModTime v ∧ Mode f = Mode v).
Proof.
  apply silent_iff_unchanged; DiffFacts.canonical_order.
Defined.

Lemma modified_flags (files : Snapshot) kv :
  Forall (λ e, ev_Op e ≠ Remove) (modified files kv)
  ∧ length (filter (λ e, ev_Op e = Create) (modified files kv))
    = length (filter (λ kv' : string * FileInfo, files !! fst kv' = None) [kv]).
Proof.
  destruct kv as [k v]. rewrite filter_cons, filter_nil. simpl.
  destruct (files !! k) as [f|]; simpl.
  - split.
    + apply Forall_app. split; case_bool_decide; by repeat constructor.
    + repeat case_bool_decide; by vm_compute.
  - split; [by repeat constructor|done].
Qed.

(** The events of one watch come in two runs: first the Create, Write and
    Chmod events, then the Remove events.  There is one Remove event for
    each stored entry whose name is missing from the new snapshot and one
    Create event for each new entry whose name was not stored. *)
Theorem removals_come_last (files n : Snapshot) (rn rf : list (string * FileInfo)) :
  ∃ changes removals,
    events files n rn rf = (changes ++ removals)%list
    ∧ Forall (λ e, ev_Op e ≠ Remove) changes
    ∧ Forall (λ e, ev_Op e = Remove) removals
    ∧ length removals
      = length (filter (λ kv : string * FileInfo, n !! fst kv = None) rf)
    ∧ length (filter (λ e, ev_Op e = Create) changes)
      = length (filter (λ kv : string * FileInfo, files !! fst kv = None) rn).
Proof.
  exists (flat_map (modified files) rn), (flat_map (deleted n) rf).
  split; [done|]. split; [|split; [|split]].
  - induction rn as [|kv rn IH]; [constructor|].
    simpl. apply Forall_app. split; [apply modified_flags|done].
  - induction rf as [|[k v] rf IH]; [constructor|].
    simpl. destruct (n !! k); [done|]. by constructor.
  - induction rf as [|[k v] rf IH]; [done|].
    rewrite filter_cons. simpl. destruct (n !! k); simpl; by rewrite IH.
  - induction rn as [|kv rn IH]; [done|].
    simpl. rewrite filter_app, length_app, IH.
    rewrite (proj2 (modified_flags files kv)).
    change (kv :: rn) with ([kv] ++ rn)%list.
    by rewrite (filter_app _ [kv] rn), length_app.
Qed.

End DiffContents.

(** ** More on ticks *)

Module TickContents.

(** A channel that is not closed is what [make] and [send] build. *)
Lemma open_chan {A} (c : chan A) :
  closed c = false → mkChan false (delivered c) = c.
Proof. destruct c as [cl sent]. simpl. by intros ->. Qed.

(** What [poll] does when the snapshot comes back and both channels are
    open. *)
Lemma poll_done range fs cur w n err :
  directoryMap fs (w_path cur) = Done (n, err) →
  closed (Errors w) = false → closed (Events w) = false →
  Watcher.poll range fs cur w
  = Done (mkWatcher
            (mkChan false
               (delivered (Events w)
                ++ Diff.events (files cur) n (range n) (range (files cur))))
            (mkChan false
               (delivered (Errors w)
                ++ match err with Some e => [e] | None => [] end))
            (pollFrequency w) (ticker w)
            (<[w_path cur := mkWatch (w_path cur) n]> (watches w))
            (isRunning w)).
Proof.
  intros Hsnap Herrs Hevs. unfold Watcher.poll. rewrite Hsnap. simpl.
  destruct err as [e|]; simpl.
  - unfold send. rewrite Herrs. simpl.
    by rewrite TickFacts.send_all_delivers.
  - rewrite TickFacts.send_all_delivers by done. simpl.
    by rewrite app_nil_r, open_chan.
Qed.

(** When the snapshot of a watch succeeds, [poll] sends the events of the
    diff after what was sent before, sends no error, stores the new snapshot
    for the watch and leaves the other watches alone. *)
Theorem poll_stores_snapshot
    (range : Snapshot → list (string * FileInfo)) (fs : FS)
    (curWatch : watch) (w : Watcher) (n : Snapshot) :
  closed (Errors w) = false → closed (Events w) = false →
  directoryMap fs (w_path curWatch) = Done (n, None) →
  ∃ w1,
    Watcher.poll range fs curWatch w = Done w1
    ∧ delivered (Events w1)
      = (delivered (Events w)
         ++ Diff.events (files curWatch) n (range n) (range (files curWatch)))%list
    ∧ Errors w1 = Errors w
    ∧ watches w1 !! w_path curWatch = Some (mkWatch (w_path curWatch) n)
    ∧ (∀ q, q ≠ w_path curWatch → watches w1 !! q = watches w !! q)
    ∧ isRunning w1 = isRunning w ∧ ticker w1 = ticker w.
Proof.
  intros Herrs Hevs Hsnap.
  rewrite (poll_done range fs curWatch w n None Hsnap Herrs Hevs).
  eexists. split; [done|]. simpl.
  split; [done|]. split; [by rewrite app_nil_r, open_chan|].
  split; [apply lookup_insert_eq|].
  split; [|done]. intros q Hq. by apply lookup_insert_ne.
Qed.

Lemma poll_stores_snapshot_witness :
  ∃ w1,
    Watcher.poll map_to_list Samples.later_disk
      (mkWatch "/tmp/w" Samples.w_snapshot) Samples.added = Done w1
    ∧ delivered (Events w1)
      = (delivered (Events Samples.added)
         ++ Diff.events Samples.w_snapshot
              (<["b.txt" := Samples.b_txt]>
                 (<["a.txt" := Samples.a_txt']>
                    (<["w" := mkFileInfo (mkOsFileInfo "w" 50 Samples.dir_mode) "/tmp/w"]> ∅)))
              (map_to_list
                 (<["b.txt" := Samples.b_txt]>
                    (<["a.txt" := Samples.a_txt']>
                       (<["w" := mkFileInfo (mkOsFileInfo "w" 50 Samples.dir_mode) "/tmp/w"]> ∅))))
              (map_to_list Samples.w_snapshot))%list
    ∧ Errors w1 = Errors Samples.added
    ∧ watches w1 !! "/tmp/w"
      = Some (mkWatch "/tmp/w"
                (<["b.txt" := Samples.b_txt]>
                   (<["a.txt" := Samples.a_txt']>
                      (<["w" := mkFileInfo (mkOsFileInfo "w" 50 Samples.dir_mode) "/tmp/w"]> ∅))))
    ∧ (∀ q, q ≠ "/tmp/w" → watches w1 !! q = watches Samples.added !! q)
    ∧ isRunning w1 = isRunning Samples.added
    ∧ ticker w1 = ticker Samples.added.
Proof.
  apply (poll_stores_snapshot map_to_list Samples.later_disk
           (mkWatch "/tmp/w" Samples.w_snapshot) Samples.added).
  - reflexivity.
  - reflexivity.
  - vm_compute. reflexivity.
Defined.

(** The diff of a snapshot against itself, for any two orders. *)
Lemma same_snapshot_quiet (S : Snapshot) rn rf :
  rn ≡ₚ map_to_list S → rf ≡ₚ map_to_list S → Diff.events S S rn rf = [].
Proof.
  intros Hn Hf. unfold Diff.events.
  assert (flat_map (Diff.modified S) rn = []) as ->.
  { apply DiffContents.flat_map_nil. intros [k v] Hkv.
    apply (elem_of_range S) in Hkv; [|done].
    apply DiffContents.modified_nil. by exists v. }
  apply DiffContents.flat_map_nil. intros [k v] Hkv.
  apply (elem_of_range S) in Hkv; [|done].
  apply DiffContents.deleted_nil. by eexists.
Qed.

(** A watch that holds the state of the disk is polled without an event
    and stays as it is. *)
Lemma poll_current range fs cur w w1 :
  (∀ m, range m ≡ₚ map_to_list m) →
  current fs cur →
  Watcher.poll range fs cur w = Done w1 →
  Events w1 = Events w
  ∧ watches w1 = <[w_path cur := cur]> (watches w).
Proof.
  intros Hrange [err Hsnap]. unfold Watcher.poll. rewrite Hsnap. simpl.
  destruct (match err with Some e => _ | None => _ end) as [errors|]; [|done].
  simpl. rewrite same_snapshot_quiet by done. simpl.
  intros [= <-]. simpl. by destruct cur.
Qed.

(** [Add] takes the baseline: polling the new watch right after [Add], on
    the same disk, sends nothing and changes nothing, so that the files that
    are there when a path is added are never reported. *)
Theorem poll_after_Add_is_silent
    (range : Snapshot → list (string * FileInfo)) (fs : FS) (p : string)
    (w w1 : Watcher) :
  (∀ m, range m ≡ₚ map_to_list m) →
  Watcher.Add fs p w = Done (w1, None) →
  ∃ c, watches w1 !! p = Some c
     ∧ w_path c = p
     ∧ Watcher.poll range fs c w1 = Done w1.
Proof.
  intros Hrange. unfold Watcher.Add.
  case_bool_decide; [done|]. destruct (watches w !! p); [done|].
  destruct (directoryMap fs p) as [[baseline [e|]]|] eqn:Hsnap; simpl;
    [done| |done].
  intros [= <-]. exists (mkWatch p baseline). simpl.
  split; [apply lookup_insert_eq|]. split; [done|].
  unfold Watcher.poll. simpl. rewrite Hsnap. simpl.
  rewrite same_snapshot_quiet by done. simpl.
  destruct w as [ev er pf tk ws run]. unfold set_watches. simpl.
  by rewrite insert_insert_eq.
Qed.

Lemma poll_after_Add_is_silent_witness :
  ∃ c, watches Samples.added !! "/tmp/w" = Some c
     ∧ w_path c = "/tmp/w"
     ∧ Watcher.poll map_to_list Samples.disk c Samples.added = Done Samples.added.
Proof.
  apply (poll_after_Add_is_silent map_to_list Samples.disk "/tmp/w" Samples.fresh).
  - intros m. reflexivity.
  - vm_compute. reflexivity.
Defined.

End TickContents.

(** ** Ticks in the life of a watcher *)

Module TickRuns.

(** The watches a tick goes through are those of the map. *)
Lemma ranged_watches (rangeW : gmap string watch → list (string * watch)) ws c :
  rangeW ws ≡ₚ map_to_list ws →
  c ∈ map snd (rangeW ws) ↔ ∃ k, ws !! k = Some c.
Proof.
  intros Hr. rewrite list_elem_of_In, in_map_iff. split.
  - intros ([k c'] & <- & Hin). exists k.
    apply list_elem_of_In in Hin. by apply (elem_of_range ws) in Hin.
  - intros [k Hk]. exists (k, c). split; [done|].
    apply list_elem_of_In. by apply (elem_of_range ws).
Qed.

(** [poll] stores what [directoryMap] returned, under the path of the
    watch. *)
Lemma poll_watches range fs cur w w1 :
  Watcher.poll range fs cur w = Done w1 →
  ∃ n err, directoryMap fs (w_path cur) = Done (n, err)
    ∧ watches w1 = <[w_path cur := mkWatch (w_path cur) n]> (watches w).
Proof.
  unfold Watcher.poll.
  destruct (directoryMap fs (w_path cur)) as [[n err]|]; [|done]. simpl.
  destruct (match err with Some e => _ | None => _ end); [|done]. simpl.
  destruct (send_all _ _); [|done]. simpl.
  intros [= <-]. by exists n, err.
Qed.

Lemma poll_all_keyed range fs l w w1 :
  keyed w → Forall (λ c, w_path c ≠ EmptyString) l →
  Watcher.poll_all range fs l w = Done w1 → keyed w1.
Proof.
  revert w. induction l as [|cur l IH]; intros w Hw Hl; simpl.
  - by intros [= <-].
  - destruct (Watcher.poll range fs cur w) as [w2|] eqn:Hp; [|done]. simpl.
    apply Forall_cons in Hl as [Hcur Hl]. apply IH; [|done].
    destruct (poll_watches _ _ _ _ _ Hp) as (n & err & _ & Hws).
    intros k c Hk. rewrite Hws in Hk.
    apply lookup_insert_Some in Hk as [[<- <-]|[_ Hk]]; [done|].
    by apply Hw.
Qed.

Lemma perform_keyed s w w1 :
  orderly s → keyed w → perform s w = Done w1 → keyed w1.
Proof.
  destruct s as [fs p|p|f| |range rangeW fs]; simpl; intros Hs Hw.
  - unfold Watcher.Add. case_bool_decide as Hp; [by intros [= <-]|].
    destruct (watches w !! p); [by intros [= <-]|].
    destruct (directoryMap fs p) as [[m [e|]]|]; simpl; [by intros [= <-]| |done].
    intros [= <-] k c Hk. simpl in Hk.
    apply lookup_insert_Some in Hk as [[<- <-]|[_ Hk]]; [done|]. by apply Hw.
  - unfold Watcher.Remove. case_bool_decide; [by intros [= <-]|].
    destruct (watches w !! p); [|by intros [= <-]].
    intros [= <-] k c Hk. simpl in Hk.
    apply lookup_delete_Some in Hk as [_ Hk]. by apply Hw.
  - by intros [= <-].
  - unfold Watcher.Close. destruct (isRunning w); [|by intros [= <-]].
    destruct (ticker w); [|done]. simpl.
    destruct (close (Events w)); [|done]. simpl.
    destruct (close (Errors w)); [|done]. simpl. by intros [= <-].
  - apply poll_all_keyed; [done|]. destruct Hs as [_ HrW].
    apply Forall_forall. intros c Hc.
    apply (ranged_watches rangeW) in Hc as [k Hk]; [|done].
    destruct (Hw k c Hk) as [-> Hne]. done.
Qed.

Lemma perform_all_keyed l w w1 :
  Forall orderly l → keyed w → perform_all l w = Done w1 → keyed w1.
Proof.
  revert w. induction l as [|s l IH]; intros w Hl Hw; simpl.
  - by intros [= <-].
  - destruct (perform s w) as [w2|] eqn:Hs; [|done]. simpl.
    apply Forall_cons in Hl as [Hord Hl]. apply IH; [done|].
    by eapply perform_keyed.
Qed.

(** Whatever is done with a watcher made by [NewWatcher], every watch is
    stored under its own path, and no watch has the empty path. *)
Theorem watches_are_stored_under_their_path (l : list step) (w : Watcher) :
  reached l w → Forall orderly l →
  ∀ k c, watches w !! k = Some c → w_path c = k ∧ k ≠ EmptyString.
Proof.
  intros (w0 & Hnew & Hrun) Hl. injection Hnew as <-.
  refine (perform_all_keyed l _ w Hl _ Hrun).
  intros k c Hk. simpl in Hk. by rewrite lookup_empty in Hk.
Qed.

Lemma watches_are_stored_under_their_path_witness :
  w_path (mkWatch "/tmp/w" Samples.w_snapshot) = "/tmp/w"
  ∧ "/tmp/w" ≠ EmptyString.
Proof.
  apply (watches_are_stored_under_their_path
           [DoAdd Samples.disk "/tmp/w";
            DoTick map_to_list map_to_list Samples.disk]
           Samples.added).
  - exists Samples.fresh. split; vm_compute; reflexivity.
  - repeat constructor; intros m; reflexivity.
  - reflexivity.
Defined.

(** After the polls of [l], a watch is either one of them, holding the
    snapshot just taken, or one that was there and that [l] passed over. *)
Lemma poll_all_current range fs l w w1 :
  Watcher.poll_all range fs l w = Done w1 →
  ∀ k c, watches w1 !! k = Some c →
    (current fs c ∧ w_path c = k ∧ ∃ c', c' ∈ l ∧ w_path c' = k)
    ∨ (watches w !! k = Some c ∧ ∀ c', c' ∈ l → w_path c' ≠ k).
Proof.
  revert w. induction l as [|cur l IH]; intros w; simpl.
  - intros [= <-] k c Hk. right. split; [done|]. intros c' Hc'.
    by apply elem_of_nil in Hc'.
  - destruct (Watcher.poll range fs cur w) as [w2|] eqn:Hp; [|done]. simpl.
    intros Hrest k c Hk.
    destruct (IH w2 Hrest k c Hk) as [(Hcur & Hpath & c' & Hc' & Hk')|[Hold Hfresh]].
    + left. split; [done|]. split; [done|]. exists c'. split; [by right|done].
    + destruct (poll_watches _ _ _ _ _ Hp) as (n & err & Hsnap & Hws).
      rewrite Hws in Hold.
      apply lookup_insert_Some in Hold as [[<- <-]|[Hne Hold]].
      * left. split; [by exists err|]. split; [done|].
        exists cur. split; [by left|done].
      * right. split; [done|]. intros c' Hc'.
        apply elem_of_cons in Hc' as [->|Hc']; [done|by apply Hfresh].
Qed.

Lemma poll_all_keeps range fs l w w1 k :
  Watcher.poll_all range fs l w = Done w1 →
  is_Some (watches w !! k) → is_Some (watches w1 !! k).
Proof.
  revert w. induction l as [|cur l IH]; intros w; simpl.
  - by intros [= <-].
  - destruct (Watcher.poll range fs cur w) as [w2|] eqn:Hp; [|done]. simpl.
    intros Hrest Hk. apply (IH w2 Hrest).
    destruct (poll_watches _ _ _ _ _ Hp) as (n & err & _ & ->).
    apply lookup_insert_is_Some.
    destruct (decide (w_path cur = k)); [by left|by right].
Qed.

(** A tick leaves the set of watched paths as it is and renews every
    watch: afterwards each watch holds what [directoryMap] returned for its
    path in this tick, the empty snapshot if it returned an error. *)
Theorem tick_renews_every_watch (l : list step) (w w1 : Watcher)
    (range : Snapshot → list (string * FileInfo))
    (rangeW : gmap string watch → list (string * watch)) (fs : FS) :
  reached l w → Forall orderly l → orderly (DoTick range rangeW fs) →
  Watcher.tick range rangeW fs w = Done w1 →
  (∀ k, is_Some (watches w1 !! k) ↔ is_Some (watches w !! k))
  ∧ (∀ k c, watches w1 !! k = Some c →
       w_path c = k ∧ ∃ err, directoryMap fs k = Done (files c, err)).
Proof.
  intros (w0 & Hnew & Hrun) Hl [_ HrW] Htick. injection Hnew as <-.
  assert (keyed w) as Hkeyed.
  { refine (perform_all_keyed l _ w Hl _ Hrun).
    intros k c Hk. simpl in Hk. by rewrite lookup_empty in Hk. }
  unfold Watcher.tick in Htick.
  pose proof (poll_all_current _ _ _ _ _ Htick) as Hcur.
  assert (∀ k c, watches w1 !! k = Some c →
            current fs c ∧ w_path c = k ∧ is_Some (watches w !! k)) as Hall.
  { intros k c Hk.
    destruct (Hcur k c Hk) as [(Hc & Hpath & c' & Hc' & Hk')|[Hold Hfresh]].
    - split; [done|]. split; [done|].
      apply (ranged_watches rangeW) in Hc' as [k' Hc']; [|done].
      destruct (Hkeyed k' c' Hc') as [Heq _]. rewrite <- Hk', Heq. by eexists.
    - exfalso. apply (Hfresh c); [|by apply (Hkeyed k c)].
      apply (ranged_watches rangeW); [done|]. by exists k. }
  split.
  - intros k. split.
    + intros [c Hk]. by apply (Hall k c).
    + by apply (poll_all_keeps _ _ _ _ _ _ Htick).
  - intros k c Hk. destruct (Hall k c Hk) as ([err Hsnap] & Hpath & _).
    split; [done|]. exists err. by rewrite <- Hpath.
Qed.

Lemma tick_renews_every_watch_witness :
  (∀ k, is_Some (watches MoreSamples.ticked !! k)
        ↔ is_Some (watches Samples.added !! k))
  ∧ (∀ k c, watches MoreSamples.ticked !! k = Some c →
       w_path c = k
       ∧ ∃ err, directoryMap Samples.later_disk k = Done (files c, err)).
Proof.
  apply (tick_renews_every_watch [DoAdd Samples.disk "/tmp/w"]
           Samples.added MoreSamples.ticked
           map_to_list map_to_list Samples.later_disk).
  - exists Samples.fresh. split; vm_compute; reflexivity.
  - repeat constructor.
  - split; intros m; reflexivity.
  - vm_compute. reflexivity.
Defined.

(** Polls of watches that hold the state of the disk, each stored under its
    path: no event, and the watches stay as they are. *)
Lemma poll_all_quiet range fs l w w1 :
  (∀ m, range m ≡ₚ map_to_list m) →
  Forall (λ c, current fs c ∧ watches w !! w_path c = Some c) l →
  Watcher.poll_all range fs l w = Done w1 →
  Events w1 = Events w ∧ watches w1 = watches w.
Proof.
  intros Hrange. revert w. induction l as [|cur l IH]; intros w Hl; simpl.
  - by intros [= <-].
  - destruct (Watcher.poll range fs cur w) as [w2|] eqn:Hp; [|done]. simpl.
    apply Forall_cons in Hl as [[Hcur Hstored] Hl].
    destruct (TickContents.poll_current _ _ _ _ _ Hrange Hcur Hp) as [Hev Hws].
    rewrite insert_id in Hws by done.
    intros Hrest. rewrite <- Hev, <- Hws. apply IH; [|done].
    by rewrite Hws.
Qed.

(** Two ticks in a row over a disk that does not change: the second one
    sends no event and leaves every watch as the first one stored it, also
    for the watches whose snapshot fails. *)
Theorem second_tick_is_silent (l : list step) (w w1 w2 : Watcher)
    (range : Snapshot → list (string * FileInfo))
    (rangeW : gmap string watch → list (string * watch)) (fs : FS) :
  reached l w → Forall orderly l → orderly (DoTick range rangeW fs) →
  Watcher.tick range rangeW fs w = Done w1 →
  Watcher.tick range rangeW fs w1 = Done w2 →
  Events w2 = Events w1 ∧ watches w2 = watches w1.
Proof.
  intros (w0 & Hnew & Hrun) Hl [Hrange HrW] Htick1 Htick2.
  injection Hnew as <-.
  assert (keyed w) as Hkeyed.
  { refine (perform_all_keyed l _ w Hl _ Hrun).
    intros k c Hk. simpl in Hk. by rewrite lookup_empty in Hk. }
  unfold Watcher.tick in Htick1, Htick2.
  pose proof (poll_all_current _ _ _ _ _ Htick1) as Hcur.
  refine (poll_all_quiet range fs _ w1 w2 Hrange _ Htick2).
  apply Forall_forall. intros c Hc.
  apply (ranged_watches rangeW) in Hc as [k Hk]; [|done].
  destruct (Hcur k c Hk) as [(Hc & Hpath & _)|[Hold Hfresh]].
  - split; [done|]. by rewrite Hpath.
  - exfalso. apply (Hfresh c); [|by apply (Hkeyed k c)].
    apply (ranged_watches rangeW); [done|]. by exists k.
Qed.

Lemma second_tick_is_silent_witness :
  Watcher.tick map_to_list map_to_list Samples.later_disk Samples.added
  = Done MoreSamples.ticked
  ∧ Watcher.tick map_to_list map_to_list Samples.later_disk MoreSamples.ticked
    = Done MoreSamples.ticked
  ∧ Events MoreSamples.ticked = Events MoreSamples.ticked
  ∧ watches MoreSamples.ticked = watches MoreSamples.ticked.
Proof.
  split; [vm_compute; reflexivity|]. split; [vm_compute; reflexivity|].
  apply (second_tick_is_silent [DoAdd Samples.disk "/tmp/w"]
           Samples.added MoreSamples.ticked MoreSamples.ticked
           map_to_list map_to_list Samples.later_disk).
  - exists Samples.fresh. split; vm_compute; reflexivity.
  - repeat constructor.
  - split; intros m; reflexivity.
  - vm_compute. reflexivity.
  - vm_compute. reflexivity.
Defined.

End TickRuns.

(** ** Ticks and the channels *)

Module TickChannels.

Lemma poll_all_returns range fs l w :
  closed (Errors w) = false → closed (Events w) = false →
  Forall (λ c, ∃ r, directoryMap fs (w_path c) = Done r) l →
  ∃ w1, Watcher.poll_all range fs l w = Done w1
    ∧ isRunning w1 = isRunning w
    ∧ closed (Errors w1) = false ∧ closed (Events w1) = false.
Proof.
  revert w. induction l as [|cur l IH]; intros w Herrs Hevs Hl; simpl.
  - by exists w.
  - apply Forall_cons in Hl as [[[n err] Hsnap] Hl].
    rewrite (TickContents.poll_done range fs cur w n err Hsnap Herrs Hevs).
    simpl.
    match goal with
    | |- ∃ w1, Watcher.poll_all _ _ _ ?w2 = _ ∧ _ =>
        destruct (IH w2 eq_refl eq_refl Hl) as (w1 & -> & Hrun & Hc)
    end.
    by exists w1.
Qed.

(** A tick of a running watcher does not panic as long as no snapshot walk
    does: it goes through all the watches, those whose snapshot fails with
    an error included, and the watcher is still running afterwards. *)
Theorem tick_of_running_watcher_returns (l : list step) (w : Watcher)
    (range : Snapshot → list (string * FileInfo))
    (rangeW : gmap string watch → list (string * watch)) (fs : FS) :
  reached l w → isRunning w = true →
  Forall (λ c, ∃ r, directoryMap fs (w_path c) = Done r)
    (map snd (rangeW (watches w))) →
  ∃ w1, Watcher.tick range rangeW fs w = Done w1 ∧ isRunning w1 = true.
Proof.
  intros Hreach Hrun Hwalks.
  destruct (WatcherFacts.reached_wired l w Hreach) as (t & _ & Hw).
  rewrite Hrun in Hw. destruct Hw as (_ & Hevs & Herrs).
  destruct (poll_all_returns range fs _ w Herrs Hevs Hwalks)
    as (w1 & Htick & Hrun1 & _).
  exists w1. split; [done|]. by rewrite Hrun1.
Qed.

Lemma tick_of_running_watcher_returns_witness :
  ∃ w1, Watcher.tick map_to_list map_to_list Samples.void Samples.added = Done w1
      ∧ isRunning w1 = true.
Proof.
  apply (tick_of_running_watcher_returns [DoAdd Samples.disk "/tmp/w"]).
  - exists Samples.fresh. split; vm_compute; reflexivity.
  - reflexivity.
  - vm_compute. repeat constructor. eexists. vm_compute. reflexivity.
Defined.

(** Once the watcher is closed, polling a watch panics with a send on a
    closed channel as soon as there is something to send, the error of a
    failed snapshot or an event of the diff; with nothing to send it
    returns. *)
Theorem poll_after_Close (l : list step) (w : Watcher)
    (range : Snapshot → list (string * FileInfo)) (fs : FS)
    (curWatch : watch) (n : Snapshot) (err : option error) :
  reached l w → isRunning w = false →
  directoryMap fs (w_path curWatch) = Done (n, err) →
  (err ≠ None ∨ Diff.events (files curWatch) n (range n) (range (files curWatch)) ≠ [] →
     Watcher.poll range fs curWatch w = Panic "send on closed channel")
  ∧ (err = None → Diff.events (files curWatch) n (range n) (range (files curWatch)) = [] →
     ∃ w1, Watcher.poll range fs curWatch w = Done w1
       ∧ Events w1 = Events w ∧ Errors w1 = Errors w).
Proof.
  intros Hreach Hrun Hsnap.
  destruct (WatcherFacts.reached_wired l w Hreach) as (t & _ & Hw).
  rewrite Hrun in Hw. destruct Hw as (_ & Hevs & Herrs).
  unfold Watcher.poll. rewrite Hsnap. simpl. split.
  - intros Hsome. destruct err as [e|]; simpl.
    + unfold send. by rewrite Herrs.
    + destruct Hsome as [?|Hev]; [done|].
      destruct (Diff.events _ _ _ _) as [|x xs]; [done|].
      simpl. unfold send. by rewrite Hevs.
  - intros -> ->. simpl. by eexists.
Qed.

Lemma poll_after_Close_witness :
  Watcher.poll map_to_list Samples.later_disk (mkWatch "/tmp/w" Samples.w_snapshot)
    (mkWatcher (mkChan true []) (mkChan true []) defaultPollFrequency
       (Some (mkTicker defaultPollFrequency 1)) (watches Samples.added) false)
  = Panic "send on closed channel".
Proof.
  apply (proj1 (poll_after_Close
                  [DoAdd Samples.disk "/tmp/w"; DoClose]
                  (mkWatcher (mkChan true []) (mkChan true []) defaultPollFrequency
                     (Some (mkTicker defaultPollFrequency 1))
                     (watches Samples.added) false)
                  map_to_list Samples.later_disk
                  (mkWatch "/tmp/w" Samples.w_snapshot)
                  MoreSamples.w_later_snapshot None
                  ltac:(exists Samples.fresh; split; vm_compute; reflexivity)
                  ltac:(reflexivity)
                  ltac:(vm_compute; reflexivity))).
  right. vm_compute. discriminate.
Defined.

(** Every event a tick sends prints with exactly one flag name, one of
    CREATE, WRITE, CHMOD and REMOVE: never RENAME, never two names with a
    bar. *)
Theorem sent_event_prints_one_flag (Quote : string → string)
    (files n : Snapshot) (rn rf : list (string * FileInfo)) (e : Event) :
  e ∈ Diff.events files n rn rf →
  ∃ flag, flag ∈ ["CREATE"; "WRITE"; "CHMOD"; "REMOVE"]
    ∧ String Quote e = (Quote (ev_Name e) ++ ": " ++ flag)%string.
Proof.
  intros He. unfold Diff.events in He.
  assert (∃ name, e = mkEvent name Create ∨ e = mkEvent name Write
                  ∨ e = mkEvent name Chmod ∨ e = mkEvent name Remove) as [name Hop].
  { apply elem_of_app in He as [He|He];
      apply list_elem_of_In, in_flat_map in He as ([k v] & _ & He);
      simpl in He; exists (path v).
    - destruct (files !! k) as [f|].
      + apply in_app_or in He as [He|He]; case_bool_decide; simpl in He;
          intuition (subst; auto).
      + simpl in He. intuition (subst; auto).
    - destruct (n !! k); simpl in He; intuition (subst; auto). }
  destruct Hop as [-> | [-> | [-> | ->]]].
  - exists "CREATE". split; [by left|done].
  - exists "WRITE". split; [by right; left|done].
  - exists "CHMOD". split; [by do 2 right; left|done].
  - exists "REMOVE". split; [by do 3 right; left|done].
Qed.

Lemma sent_event_prints_one_flag_witness :
  ∃ flag, flag ∈ ["CREATE"; "WRITE"; "CHMOD"; "REMOVE"]
    ∧ String Samples.bracket (mkEvent "/tmp/w/b.txt" Create)
      = (Samples.bracket (ev_Name (mkEvent "/tmp/w/b.txt" Create)) ++ ": " ++ flag)%string.
Proof.
  apply (sent_event_prints_one_flag Samples.bracket Samples.before Samples.after
           (map_to_list Samples.after) (map_to_list Samples.before)).
  vm_compute. do 2 right. left.
Defined.

End TickChannels.

(** ** More on snapshots and strings *)

Module Remaining.

Lemma replay_returned cs : ∀ m m1,
  replay cs m = Done m1 → Forall (λ c, is_Some (seen c)) cs.
Proof.
  induction cs as [|[[p f] err] cs IH]; intros m m1 Hm; [constructor|].
  simpl in Hm. destruct f as [f|]; [|done]. simpl in Hm.
  constructor; [by eexists|]. by eapply IH.
Qed.

(** The snapshot of a root that exists comes back exactly when every call
    of the walk brings metadata, that is when every entry below the root can
    be stat'ed; a directory that cannot be listed is no obstacle, it is
    stored like a file. *)
Theorem directoryMap_returns_iff (fs : FS) (root : string)
    (info : OsFileInfo) (names : error + list tree) :
  fs root = Found info names →
  (∃ m, directoryMap fs root = Done (m, None))
  ↔ Forall (λ c, is_Some (seen c)) (Filepath.calls root (fs root)).
Proof.
  intros Hroot.
  rewrite (SnapshotFacts.directoryMap_replay fs root info names Hroot). split.
  - intros [m Hm].
    destruct (replay (Filepath.calls root (fs root)) ∅) as [m1|] eqn:Hreplay;
      [|done].
    by apply replay_returned in Hreplay.
  - intros Hall.
    destruct (SnapshotFacts.replay_returns _ ∅ Hall) as [m Hm].
    exists m. by rewrite Hm.
Qed.

Lemma directoryMap_returns_iff_witness :
  (∃ m, directoryMap MoreSamples.private_disk "/tmp/private" = Done (m, None))
  ↔ Forall (λ c, is_Some (seen c))
      (Filepath.calls "/tmp/private" (MoreSamples.private_disk "/tmp/private")).
Proof.
  apply (directoryMap_returns_iff MoreSamples.private_disk "/tmp/private"
           MoreSamples.private_info
           (inl (PathError "open" "/tmp/private" "permission denied"))).
  reflexivity.
Defined.

(** The string of an event depends on its name and its five flag bits
    only: bits above them do not show. *)
Theorem String_ignores_other_bits (Quote : string → string) (name : string) (op : Op) :
  String Quote (mkEvent name op) = String Quote (mkEvent name (Z.land op 31)).
Proof.
  unfold String. simpl.
  assert (∀ i, (0 ≤ i < 5)%Z → has (Z.land op 31) (2 ^ i) = has op (2 ^ i)) as Hbit.
  { intros i Hi. rewrite !StringFacts.has_bit by lia.
    rewrite Z.land_spec. change 31%Z with (Z.ones 5).
    rewrite Z.ones_spec_low by lia. apply andb_true_r. }
  change Create with (2 ^ 0)%Z. change Remove with (2 ^ 2)%Z.
  change Write with (2 ^ 1)%Z. change Rename with (2 ^ 3)%Z.
  change Chmod with (2 ^ 4)%Z.
  by rewrite !Hbit by lia.
Qed.

End Remaining.
